(** * Generation-session state machine of [src/app/page.tsx]

    A shallow embedding of the [Home] component's session logic: the
    [submit] handler (split at its [await] into the synchronous prefix and
    the continuation that runs when the request settles), [restoreVersion],
    [reset] and the preview overlay, followed by the properties of the
    version store, the turn log and the snapshot counter. *)

From Stdlib Require Import String Ascii DecimalString.
From Stdlib Require Import ZArith NArith Lia Bool List.
Import ListNotations.
Open Scope Z_scope.

(** ** JavaScript strings and arrays *)

(** A JavaScript string is a sequence of UTF-16 code units. *)
Definition jsstring := list N.

Definition lit (s : string) : jsstring :=
  map N_of_ascii (list_ascii_of_string s).

(** ECMAScript WhiteSpace and LineTerminator code points, the characters
    [String.prototype.trim] strips (all of them lie in the BMP). *)
Definition isWhiteSpace (c : N) : bool :=
  ((c =? 9) || (c =? 10) || (c =? 11) || (c =? 12) || (c =? 13) ||
   (c =? 32) || (c =? 160) || (c =? 5760) ||
   ((8192 <=? c) && (c <=? 8202)) ||
   (c =? 8232) || (c =? 8233) || (c =? 8239) || (c =? 8287) ||
   (c =? 12288) || (c =? 65279))%N.

Fixpoint trimStart (s : jsstring) : jsstring :=
  match s with
  | [] => []
  | c :: r => if isWhiteSpace c then trimStart r else s
  end.

Definition trimEnd (s : jsstring) : jsstring := rev (trimStart (rev s)).

(** [prompt.trim()] *)
Definition trim (s : jsstring) : jsstring := trimEnd (trimStart s).

(** Truthiness of a string value: [!s] holds exactly for the empty string. *)
Definition nonEmpty (s : jsstring) : bool :=
  match s with [] => false | _ :: _ => true end.

(** Truthiness of a property that may be absent. *)
Definition truthy (o : option jsstring) : bool :=
  match o with Some s => nonEmpty s | None => false end.

(** Decimal rendering of an integral number inside a template literal. *)
Definition numberToString (n : Z) : jsstring :=
  lit (NilZero.string_of_int (Z.to_int n)).

Section Arrays.
Context {A : Type}.

Fixpoint findIndexFrom (f : A -> bool) (l : list A) (i : Z) : Z :=
  match l with
  | [] => -1
  | x :: r => if f x then i else findIndexFrom f r (i + 1)
  end.

(** [Array.prototype.findIndex]: index of the first match, [-1] if none. *)
Definition findIndex (f : A -> bool) (l : list A) : Z := findIndexFrom f l 0.

(** Relative index resolution of [Array.prototype.slice]: a negative
    index counts from the end, and the result is clamped to [0..len]. *)
Definition relIndex (len i : Z) : Z :=
  if i <? 0 then Z.max (len + i) 0 else Z.min i len.

(** [Array.prototype.slice(start, end)] *)
Definition slice (start end_ : Z) (l : list A) : list A :=
  let len := Z.of_nat (length l) in
  let k := relIndex len start in
  let final := relIndex len end_ in
  firstn (Z.to_nat (final - k)) (skipn (Z.to_nat k) l).
End Arrays.

(** ** Data model *)

Inductive AppState := idle | thinking | rendered | error.

Definition isThinking (s : AppState) : bool :=
  match s with thinking => true | _ => false end.

Inductive Role := user | assistant.

Module HistoryTurn.
Record t := mk { role : Role; content : jsstring }.
End HistoryTurn.

Module UIVersion.
(** [timestamp] is the clock reading of [new Date()] in milliseconds.
    [id] is a JavaScript number; it only ever holds small counts, on
    which number arithmetic is exact integer arithmetic. *)
Record t (Json : Type) := mk {
  id : Z;
  prompt : jsstring;
  messages : list Json;
  history : list HistoryTurn.t;
  timestamp : Z
}.
Arguments mk {Json}.
Arguments id {Json}.
Arguments prompt {Json}.
Arguments messages {Json}.
Arguments history {Json}.
Arguments timestamp {Json}.
End UIVersion.

(** The builtin [JSON.stringify], applied to the array of generated
    messages.  The documents are opaque to the component, so their type
    and their serialisation are an interface. *)
Class Stringify (Json : Type) := stringify : list Json -> jsstring.

(** ** The [Home] component *)

Section Model.
Context {Json : Type} `{Stringify Json}.

Local Abbreviation UIVersion := (UIVersion.t Json).

(** The state hooks of [Home] that make up the session, and the
    [versionCounter] ref.  ([placeholderIdx] only drives the rotating
    placeholder text and is left out.) *)
Record Session := mkSession {
  state : AppState;
  a2uiMessages : list Json;
  lastPrompt : jsstring;
  errorMsg : jsstring;
  input : jsstring;
  history : list HistoryTurn.t;
  versions : list UIVersion;
  activeVersionId : Z;
  versionCounter : Z
}.

(** What [submit] still holds while it is suspended at [await fetch]:
    its locals [trimmed] and [historyToSend], which are also the body of
    the request. *)
Record Pending := mkPending {
  trimmed : jsstring;
  historyToSend : list HistoryTurn.t
}.

(** A value caught by [catch (err)]. *)
Inductive Thrown :=
| ErrorObject (message : jsstring)
| OtherValue.

(** The parsed body: the properties [submit] reads from [data], each of
    which may be absent.  [error] and [text] are strings and [messages]
    is an array, as the route sends them. *)
Record ResponseData := mkData {
  data_error : option jsstring;
  data_messages : option (list Json);
  data_text : option jsstring
}.

Inductive BodyResult :=
| BodyRejected (e : Thrown)
| BodyParsed (data : ResponseData).

(** How the request settles: [fetch] rejects, or resolves with a status
    and a body that [res.json()] then parses or rejects.  (A body that
    parses to [null] makes the read of [data.error] throw, which is a
    [BodyRejected] with an error object as far as [submit] goes.) *)
Inductive FetchResult :=
| FetchRejected (e : Thrown)
| FetchResolved (ok : bool) (status : Z) (body : BodyResult).

Definition noUiMessage : jsstring :=
  lit "Claude generated no UI " ++ [8212%N] ++ lit " try rephrasing".

(** The [try] block up to the last [throw]: either a thrown value or
    the pair [(data.messages, data.text)]. *)
Definition received (r : FetchResult) : Thrown + (list Json * option jsstring) :=
  match r with
  | FetchRejected e => inl e
  | FetchResolved ok status body =>
      if negb ok then
        inl (ErrorObject (lit "Server error: " ++ numberToString status))
      else
        match body with
        | BodyRejected e => inl e
        | BodyParsed data =>
            if truthy (data_error data) then
              inl (ErrorObject (match data_error data with
                                | Some m => m
                                | None => []
                                end))
            else
              match data_messages data with
              | None | Some [] => inl (ErrorObject noUiMessage)
              | Some msgs => inr (msgs, data_text data)
              end
        end
  end.

(** [err instanceof Error ? err.message : "Something went wrong"] *)
Definition caughtMessage (e : Thrown) : jsstring :=
  match e with
  | ErrorObject m => m
  | OtherValue => lit "Something went wrong"
  end.

(** The content of the assistant turn. *)
Definition assistantContent (text : option jsstring) (msgs : list Json) : jsstring :=
  match text with
  | Some t =>
      if nonEmpty t
      then t ++ [10%N] ++ lit "---a2ui_JSON---" ++ [10%N] ++ stringify msgs
      else stringify msgs
  | None => stringify msgs
  end.

(** [submit], from its first line to [await fetch(...)].  The handler
    is rebuilt on every render, so the [state] and [history] it reads
    are those of the session at the time of the call.  The result is
    the session after the synchronous updates, and the request that
    was sent, if any. *)
Definition submit (prompt : jsstring) (isRefinement : bool) (s : Session)
  : Session * option Pending :=
  let trimmed := trim prompt in
  if negb (nonEmpty trimmed) || isThinking (state s) then (s, None)
  else
    let historyToSend := if isRefinement then history s else [] in
    let s' :=
      if negb isRefinement then
        {| state := thinking; a2uiMessages := []; lastPrompt := trimmed;
           errorMsg := []; input := []; history := []; versions := [];
           activeVersionId := activeVersionId s; versionCounter := 0 |}
      else
        {| state := thinking; a2uiMessages := a2uiMessages s;
           lastPrompt := trimmed; errorMsg := []; input := [];
           history := history s; versions := versions s;
           activeVersionId := activeVersionId s;
           versionCounter := versionCounter s |} in
    (s', Some (mkPending trimmed historyToSend)).

(** [const newHistory = [...historyToSend, {user}, {assistant}]] *)
Definition newHistory (p : Pending) (msgs : list Json) (text : option jsstring)
  : list HistoryTurn.t :=
  historyToSend p ++
  [ HistoryTurn.mk user (trimmed p);
    HistoryTurn.mk assistant (assistantContent text msgs) ].

(** [const newVersion: UIVersion = {...}], built after the counter has
    been incremented to [counter]. *)
Definition newVersion (counter : Z) (p : Pending) (msgs : list Json)
           (text : option jsstring) (now : Z) : UIVersion :=
  UIVersion.mk counter (trimmed p) msgs (newHistory p msgs text) now.

(** [submit], from the point where the request has settled to its end.
    [s] is the session at that time: [versionCounter.current] is read
    from the ref and [setVersions] takes the live array, while [trimmed]
    and [historyToSend] are the suspended call's own locals.  The two
    awaits ([fetch], then [res.json()]) are taken in one go: nothing is
    written between them. *)
Definition submitResume (p : Pending) (r : FetchResult) (now : Z) (s : Session)
  : Session :=
  match received r with
  | inr (msgs, text) =>
      let counter := versionCounter s + 1 in
      let v := newVersion counter p msgs text now in
      {| state := rendered; a2uiMessages := msgs; lastPrompt := lastPrompt s;
         errorMsg := errorMsg s; input := input s;
         history := newHistory p msgs text;
         versions := versions s ++ [v];
         activeVersionId := UIVersion.id v;
         versionCounter := counter |}
  | inl err =>
      {| state := error; a2uiMessages := a2uiMessages s;
         lastPrompt := lastPrompt s; errorMsg := caughtMessage err;
         input := input s; history := history s; versions := versions s;
         activeVersionId := activeVersionId s;
         versionCounter := versionCounter s |}
  end.

Definition restoreVersion (version : UIVersion) (s : Session) : Session :=
  {| state := rendered; a2uiMessages := UIVersion.messages version;
     lastPrompt := UIVersion.prompt version; errorMsg := errorMsg s;
     input := input s; history := UIVersion.history version;
     versions :=
       slice 0
         (findIndex (fun v => UIVersion.id v =? UIVersion.id version)
                    (versions s) + 1)
         (versions s);
     activeVersionId := UIVersion.id version;
     versionCounter := UIVersion.id version |}.

Definition reset (s : Session) : Session :=
  {| state := idle; a2uiMessages := []; lastPrompt := lastPrompt s;
     errorMsg := []; input := []; history := []; versions := [];
     activeVersionId := 0; versionCounter := 0 |}.

(** The whole component: the session, the snapshot shown in the preview
    modal, and the [submit] calls suspended at their request, oldest
    first. *)
Record Home := mkHome {
  session : Session;
  previewVersion : option UIVersion;
  inflight : list Pending
}.

(** The values the hooks start with. *)
Definition initial : Home :=
  {| session :=
       {| state := idle; a2uiMessages := []; lastPrompt := [];
          errorMsg := []; input := []; history := []; versions := [];
          activeVersionId := 0; versionCounter := 0 |};
     previewVersion := None;
     inflight := [] |}.

(** A pill of [VersionTimeline]:
    [onClick={() => v.id !== activeId && onSelect(v)}] with
    [onSelect = setPreviewVersion]. *)
Definition preview (v : UIVersion) (h : Home) : Home :=
  if UIVersion.id v =? activeVersionId (session h) then h
  else {| session := session h; previewVersion := Some v;
          inflight := inflight h |}.

(** [onClose = () => setPreviewVersion(null)] *)
Definition closePreview (h : Home) : Home :=
  {| session := session h; previewVersion := None; inflight := inflight h |}.

(** What [VersionPreviewModal] is given to show. *)
Definition previewView (h : Home) : option UIVersion := previewVersion h.

(** [() => { onRestore(version); onClose(); }], the modal's button. *)
Definition restoreAndClose (version : UIVersion) (h : Home) : Home :=
  closePreview
    {| session := restoreVersion version (session h);
       previewVersion := previewVersion h; inflight := inflight h |}.

(** What can happen to the component: a call of [submit]; the settling
    of the request of the [k]-th suspended call; a click on the [i]-th
    pill of the timeline; the two buttons of the modal, which is given
    [previewVersion]; [reset].  Which screen shows which control is not
    modelled: every event may come in every state, which only adds
    runs. *)
Inductive Event :=
| Submit (prompt : jsstring) (isRefinement : bool)
| Settle (k : nat) (r : FetchResult) (now : Z)
| Preview (i : nat)
| Restore
| ClosePreview
| Reset.

Definition optList {A} (o : option A) : list A :=
  match o with Some a => [a] | None => [] end.

Definition dropNth {A} (k : nat) (l : list A) : list A :=
  firstn k l ++ skipn (S k) l.

(** One handler run. *)
Definition step (h : Home) (e : Event) : Home :=
  match e with
  | Submit prompt isRefinement =>
      let (s', sent) := submit prompt isRefinement (session h) in
      {| session := s'; previewVersion := previewVersion h;
         inflight := inflight h ++ optList sent |}
  | Settle k r now =>
      match nth_error (inflight h) k with
      | Some p =>
          {| session := submitResume p r now (session h);
             previewVersion := previewVersion h;
             inflight := dropNth k (inflight h) |}
      | None => h
      end
  | Preview i =>
      match nth_error (versions (session h)) i with
      | Some v => preview v h
      | None => h
      end
  | Restore =>
      match previewVersion h with
      | Some version => restoreAndClose version h
      | None => h
      end
  | ClosePreview => closePreview h
  | Reset =>
      {| session := reset (session h); previewVersion := previewVersion h;
         inflight := inflight h |}
  end.

Definition run (h : Home) (evs : list Event) : Home := fold_left step evs h.

(** A session turn: a [submit] call and the settling of the request it
    sent, which is the one [submit] has just put last in [inflight]; when
    the call was rejected there is nothing at that place to settle. *)
Definition turn (prompt : jsstring) (isRefinement : bool)
           (r : FetchResult) (now : Z) (h : Home) : Home :=
  step (step h (Submit prompt isRefinement))
       (Settle (length (inflight h)) r now).

(** A sequence of turns, each given by its prompt, its refinement flag,
    the way its request settles and the clock reading at that time. *)
Definition Turn : Type := jsstring * bool * FetchResult * Z.

Definition turns (ts : list Turn) (h : Home) : Home :=
  fold_left (fun h t => let '(p, isRefinement, r, now) := t in
                        turn p isRefinement r now h) ts h.

(** Whether the [try] block runs to its end. *)
Definition generates (r : FetchResult) : bool :=
  match received r with inr _ => true | inl _ => false end.

(** A turn whose prompt passes the guard and whose generation succeeds. *)
Definition successful (t : Turn) : Prop :=
  let '(p, _, r, _) := t in nonEmpty (trim p) = true /\ generates r = true.

(** The number of turns in the lineage the last non-refinement turn
    started. *)
Definition lineageLength (ts : list Turn) : nat :=
  fold_left (fun n t => let '(_, isRefinement, _, _) := t in
                        if isRefinement : bool then S n else 1%nat) ts 0%nat.

(** ** Invariants of the store *)

Definition ids (vs : list UIVersion) : list Z := map UIVersion.id vs.

(** [countFrom n k] is [n; n+1; ...], [k] numbers in all. *)
Fixpoint countFrom (n : Z) (k : nat) : list Z :=
  match k with
  | O => []
  | S k' => n :: countFrom (n + 1) k'
  end.

(** Whether [x] is among [countFrom n len]. *)
Definition inRange (n x : Z) (len : nat) : bool :=
  (n <=? x) && (x <? n + Z.of_nat len).

(** The snapshot ids go up one by one and end at the counter. *)
Definition consecutive (s : Session) : Prop :=
  ids (versions s)
  = countFrom (versionCounter s + 1 - Z.of_nat (length (versions s)))
              (length (versions s)).

(** The snapshot ids are [1; 2; ...; n] and the counter stands at [n]. *)
Definition wellNumbered (s : Session) : Prop :=
  ids (versions s) = countFrom 1 (length (versions s)) /\
  versionCounter s = Z.of_nat (length (versions s)).

Definition evenLength (l : list HistoryTurn.t) : Prop :=
  Nat.even (length l) = true.

(** Every turn log around is of even length: the session's, the ones
    stored in snapshots, the ones suspended calls will extend, and the
    one of the snapshot in the modal. *)
Definition logsEven (h : Home) : Prop :=
  evenLength (history (session h)) /\
  Forall (fun v => evenLength (UIVersion.history v)) (versions (session h)) /\
  Forall (fun p => evenLength (historyToSend p)) (inflight h) /\
  Forall (fun v => evenLength (UIVersion.history v))
         (optList (previewVersion h)).

(** The snapshot [v] is in the store before each event of [evs] and at
    the end. *)
Fixpoint kept (v : UIVersion) (h : Home) (evs : list Event) : Prop :=
  In v (versions (session h)) /\
  match evs with
  | [] => True
  | e :: es => kept v (step h e) es
  end.

(** ** What the screens show *)

(** The badge of the header, on the session's turn log [log]:
    [history.length > 2 &&] a span reading
    [Math.floor(history.length / 2)], [" refinement"] and an ["s"] when
    [history.length > 4]. *)
Definition refinementBadge (log : list HistoryTurn.t) : option jsstring :=
  let len := length log in
  if (2 <? len)%nat then
    Some (numberToString (Z.of_nat (len / 2)) ++ lit " refinement" ++
          (if (4 <? len)%nat then lit "s" else []))
  else None.

(** The badge of the modal's footer, on the turn log of the snapshot the
    modal shows: [version.history.length > 2 &&] a span reading
    [Math.floor(version.history.length / 2)], [" refinement"], an ["s"]
    when [version.history.length > 4], and [" applied"]. *)
Definition modalBadge (version : UIVersion) : option jsstring :=
  let len := length (UIVersion.history version) in
  if (2 <? len)%nat then
    Some (numberToString (Z.of_nat (len / 2)) ++ lit " refinement" ++
          (if (4 <? len)%nat then lit "s" else []) ++ lit " applied")
  else None.

(** The text of a pill:
    [v.prompt.length > 28 ? v.prompt.slice(0, 28) + "..." : v.prompt],
    the three dots being the one character U+2026. *)
Definition pillPrompt (v : UIVersion) : jsstring :=
  if 28 <? Z.of_nat (length (UIVersion.prompt v))
  then slice 0 28 (UIVersion.prompt v) ++ [8230%N]
  else UIVersion.prompt v.

(** Whether a pill carries the class [active]: [v.id === activeId]. *)
Definition pillActive (activeId : Z) (v : UIVersion) : bool :=
  UIVersion.id v =? activeId.

(** ** Kinds of runs *)

(** The modal's restore button and [reset] are not used while a
    generation is awaited. *)
Definition calmEvent (h : Home) (e : Event) : Prop :=
  match e with
  | Restore | Reset => state (session h) <> thinking
  | _ => True
  end.

Fixpoint calm (h : Home) (evs : list Event) : Prop :=
  match evs with
  | [] => True
  | e :: es => calmEvent h e /\ calm (step h e) es
  end.

(** Moreover, the snapshot the modal restores is still in the store. *)
Definition orderlyEvent (h : Home) (e : Event) : Prop :=
  calmEvent h e /\
  match e with
  | Restore =>
      Forall (fun v => In v (versions (session h))) (optList (previewVersion h))
  | _ => True
  end.

Fixpoint orderly (h : Home) (evs : list Event) : Prop :=
  match evs with
  | [] => True
  | e :: es => orderlyEvent h e /\ orderly (step h e) es
  end.

(** ** Invariants of the runs *)

(** With snapshots in the store, the active id is the counter. *)
Definition activeIsCounter (h : Home) : Prop :=
  versions (session h) <> [] ->
  activeVersionId (session h) = versionCounter (session h).

(** The state [thinking] is backed by a request. *)
Definition thinkingHasRequest (h : Home) : Prop :=
  state (session h) = thinking -> inflight h <> [].

(** At most one request is out, and exactly while [thinking]. *)
Definition atMostOne (h : Home) : Prop :=
  (length (inflight h) <= 1)%nat /\
  (state (session h) = thinking <-> inflight h <> []).

(** In the state [idle] the session holds nothing. *)
Definition idleIsEmpty (h : Home) : Prop :=
  state (session h) = idle ->
  a2uiMessages (session h) = [] /\ errorMsg (session h) = [] /\
  input (session h) = [] /\ history (session h) = [] /\
  versions (session h) = [] /\ activeVersionId (session h) = 0 /\
  versionCounter (session h) = 0.

(** ** Well-formed snapshots *)

(** What [submitResume] puts into a snapshot: a positive id, a prompt in
    trimmed form, at least one message, and a turn log that ends with the
    prompt and the answer to it. *)
Definition soundSnapshot (v : UIVersion) : Prop :=
  1 <= UIVersion.id v /\
  nonEmpty (UIVersion.prompt v) = true /\
  trim (UIVersion.prompt v) = UIVersion.prompt v /\
  UIVersion.messages v <> [] /\
  exists context answer,
    UIVersion.history v =
    context ++ [ HistoryTurn.mk user (UIVersion.prompt v);
                 HistoryTurn.mk assistant answer ].

Definition soundPending (p : Pending) : Prop :=
  nonEmpty (trimmed p) = true /\ trim (trimmed p) = trimmed p.

Definition sound (h : Home) : Prop :=
  0 <= versionCounter (session h) /\
  Forall soundSnapshot (versions (session h)) /\
  Forall soundSnapshot (optList (previewVersion h)) /\
  Forall soundPending (inflight h) /\
  (state (session h) = rendered -> a2uiMessages (session h) <> []).

(** The store as an orderly run leaves it: numbered from one, at most
    one request out and that exactly while the state is [thinking], the
    session showing the last snapshot, and every snapshot's turn log
    being the one before it with two turns added. *)
Definition showsLast (s : Session) : Prop :=
  forall pre v, versions s = pre ++ [v] ->
    history s = UIVersion.history v /\
    a2uiMessages s = UIVersion.messages v /\
    activeVersionId s = UIVersion.id v.

Definition chained (vs : list UIVersion) : Prop :=
  (forall v, In v vs ->
     Z.of_nat (length (UIVersion.history v)) = 2 * UIVersion.id v) /\
  (forall pre v w post, vs = pre ++ v :: w :: post ->
     exists question answer,
       UIVersion.history w = UIVersion.history v ++ [question; answer]).

Definition coherent (h : Home) : Prop :=
  wellNumbered (session h) /\
  (length (inflight h) <= 1)%nat /\
  (state (session h) = thinking <-> inflight h <> []) /\
  Forall (fun p => historyToSend p = history (session h)) (inflight h) /\
  Z.of_nat (length (history (session h))) = 2 * versionCounter (session h) /\
  showsLast (session h) /\
  chained (versions (session h)).

End Model.

Arguments Session : clear implicits.
Arguments ResponseData : clear implicits.
Arguments BodyResult : clear implicits.
Arguments FetchResult : clear implicits.
Arguments Home : clear implicits.
Arguments Event : clear implicits.

(** ** The placeholder *)

Definition PROMPTS : list jsstring :=
  [ lit "Build a contact form with name, email, and message";
    lit "Create a dashboard with 3 KPI stat cards";
    lit "Make a team member profile card for Sarah Chen, Lead Designer";
    lit "Generate a todo list for launching a product";
    lit "Design a booking confirmation for a flight to Tokyo";
    lit "Create a feedback survey with star ratings";
    lit "Build a settings panel with toggles and dropdowns";
    lit "Make a job application form" ].

(** The interval's update, [(i) => (i + 1) % PROMPTS.length]. *)
Definition nextPlaceholder (i : nat) : nat := ((i + 1) mod length PROMPTS)%nat.

(** [placeholderIdx] after [n] ticks of the interval, from its start at 0. *)
Definition placeholderAfter (n : nat) : nat := Nat.iter n nextPlaceholder 0%nat.

(** ** A concrete instance for running the model

    Each generated message is represented by its own JSON text, and the
    array is serialised as [JSON.stringify] does: comma separated within
    brackets. *)

Module Demo.

Fixpoint joinComma (l : list jsstring) : jsstring :=
  match l with
  | [] => []
  | [x] => x
  | x :: r => x ++ lit "," ++ joinComma r
  end.

#[export] Instance stringifyText : Stringify jsstring :=
  fun msgs => lit "[" ++ joinComma msgs ++ lit "]".

(** The JSON text of [{ key: {} }]. *)
Definition message (key : string) : jsstring :=
  lit "{" ++ [34%N] ++ lit key ++ [34%N] ++ lit ":{}}".

Definition threeMessages : list jsstring :=
  [message "surfaceUpdate"; message "dataModelUpdate"; message "beginRendering"].

(** A response the generator answers with, and the ways it can fail. *)
Definition generatorOk (msgs : list jsstring) : FetchResult jsstring :=
  FetchResolved true 200 (BodyParsed (mkData None (Some msgs) None)).

Definition transportError : FetchResult jsstring :=
  FetchRejected (ErrorObject (lit "Failed to fetch")).

Definition serverError : FetchResult jsstring :=
  FetchResolved false 503 (BodyRejected OtherValue).

Definition generatorError : FetchResult jsstring :=
  FetchResolved true 200
    (BodyParsed (mkData (Some (lit "Cannot reach A2A agent")) None None)).

Definition noMessages : FetchResult jsstring :=
  FetchResolved true 200 (BodyParsed (mkData None (Some []) None)).

Definition contactForm : jsstring := lit "Build a contact form".
Definition phoneField : jsstring := lit "Add a phone field".
Definition darkMode : jsstring := lit "Make it dark mode".

(** The scenarios: a first generation, a refinement, and a restore of
    the first snapshot. *)
Definition scenario1 : Home jsstring :=
  turn contactForm false (generatorOk threeMessages) 1000 initial.

Definition scenario2 : Home jsstring :=
  turn phoneField true (generatorOk threeMessages) 2000 scenario1.

Definition snapshot (k : nat) (h : Home jsstring) : UIVersion.t jsstring :=
  nth k (versions (session h))
      (UIVersion.mk 0 [] [] [] 0).

Definition scenario3 : Home jsstring :=
  restoreAndClose (snapshot 0 scenario2) scenario2.

(** The same sessions as handler runs, one by one. *)
Definition firstRequest : list (Event jsstring) :=
  [Submit contactForm false].

Definition refinement : list (Event jsstring) :=
  [Submit phoneField true; Settle 0 (generatorOk threeMessages) 2000].

Definition scenario2Events : list (Event jsstring) :=
  firstRequest ++ [Settle 0 (generatorOk threeMessages) 1000] ++ refinement.


Definition twoTurns : list (Turn (Json := jsstring)) :=
  [ (contactForm, false, generatorOk threeMessages, 1000);
    (phoneField, true, generatorOk threeMessages, 2000) ].

(** Snapshot 1 is previewed and restored, and a refinement follows. *)
Definition branchingRun : list (Event jsstring) :=
  scenario2Events ++
  [Preview 0; Restore; Submit darkMode true;
   Settle 0 (generatorOk threeMessages) 3000].

(** With two snapshots in the store the modal is opened on the first,
    and a refinement is submitted from the refine bar while the modal
    is still open. *)
Definition pendingWithModal : list (Event jsstring) :=
  scenario2Events ++ [Preview 0; Submit phoneField true].

(** The session is reset after two generations. *)
Definition startedOver : list (Event jsstring) := scenario2Events ++ [Reset].

End Demo.


Import Demo.

(** * Properties *)

(** ** Strings *)

Lemma trim_blank : trim (lit "   ") = [].
Proof. reflexivity. Qed.

Lemma trim_both_ends : trim (lit "  Add a phone field ") = phoneField.
Proof. reflexivity. Qed.

(** ** Arrays *)

Section ArrayFacts.
Context {A : Type}.

Lemma app_eq_same_length (a c b d : list A) :
  length a = length c -> a ++ b = c ++ d -> a = c /\ b = d.
Proof.
  revert c; induction a as [|x a IH]; intros [|y c] Hlen Heq;
    simpl in *; try discriminate.
  - now split.
  - injection Heq as -> Heq. destruct (IH c) as [-> ->]; auto.
Qed.

Lemma slice_prefix (n : Z) (l : list A) :
  0 <= n -> slice 0 n l = firstn (Z.to_nat n) l.
Proof.
  intros Hn. unfold slice, relIndex.
  assert (Hlen : 0 <= Z.of_nat (length l)) by lia.
  change (0 <? 0) with false. cbv iota.
  destruct (Z.ltb_spec n 0); [lia|].
  rewrite (Z.min_l 0) by lia. simpl skipn. rewrite Z.sub_0_r.
  destruct (Z.le_ge_cases n (Z.of_nat (length l))) as [Hle|Hge].
  - now rewrite Z.min_l by lia.
  - rewrite Z.min_r by lia. rewrite Nat2Z.id.
    rewrite firstn_all. symmetry. apply firstn_all2. lia.
Qed.


Lemma firstn_incl (n : nat) (l : list A) : incl (firstn n l) l.
Proof.
  revert n; induction l as [|x l IH]; intros [|n]; simpl;
    try apply incl_nil_l.
  intros y [->|Hy]; [now left|right; now apply (IH n)].
Qed.

End ArrayFacts.

(** ** Numbering *)

Lemma countFrom_length (n : Z) (k : nat) : length (countFrom n k) = k.
Proof. revert n; induction k; intros n; simpl; auto. Qed.

Lemma countFrom_app (n : Z) (a b : nat) :
  countFrom n (a + b) = countFrom n a ++ countFrom (n + Z.of_nat a) b.
Proof.
  revert n; induction a as [|a IH]; intros n.
  - simpl. now rewrite Z.add_0_r.
  - cbn [Nat.add countFrom app]. rewrite IH. do 3 f_equal. lia.
Qed.

Lemma countFrom_In (n : Z) (k : nat) (x : Z) :
  In x (countFrom n k) <-> n <= x < n + Z.of_nat k.
Proof.
  revert n; induction k as [|k IH]; intros n.
  - simpl. lia.
  - cbn [countFrom In]. rewrite IH. lia.
Qed.

Lemma countFrom_firstn (n : Z) (k m : nat) :
  (m <= k)%nat -> firstn m (countFrom n k) = countFrom n m.
Proof.
  intros Hm. replace k with (m + (k - m))%nat by lia.
  rewrite countFrom_app.
  rewrite firstn_app, countFrom_length, Nat.sub_diag. simpl.
  rewrite app_nil_r. apply firstn_all2. rewrite countFrom_length. lia.
Qed.

Section Properties.
Context {Json : Type} `{Stringify Json}.

Local Abbreviation UIVersion := (UIVersion.t Json).
Local Abbreviation Session := (Session Json).
Local Abbreviation Home := (Home Json).
Local Abbreviation Event := (Event Json).
Local Abbreviation FetchResult := (FetchResult Json).

#[local] Arguments Z.add : simpl never.
#[local] Arguments Z.sub : simpl never.
#[local] Arguments Z.of_nat : simpl never.

Implicit Types (s : Session) (h : Home) (v u : UIVersion) (e : Event)
         (r : FetchResult) (p : Pending) (vs : list UIVersion)
         (prompt : jsstring) (isRefinement : bool) (now : Z).

Lemma ids_app vs1 vs2 : ids (vs1 ++ vs2) = ids vs1 ++ ids vs2.
Proof. apply map_app. Qed.

Lemma ids_length vs : length (ids vs) = length vs.
Proof. apply length_map. Qed.

(** In a numbered store the position of a snapshot is given by its id. *)
Lemma numbered_split (n : Z) pre v post :
  ids (pre ++ v :: post) = countFrom n (length (pre ++ v :: post)) ->
  ids pre = countFrom n (length pre) /\
  UIVersion.id v = n + Z.of_nat (length pre) /\
  ids post = countFrom (n + Z.of_nat (length pre) + 1) (length post).
Proof.
  rewrite ids_app, length_app, countFrom_app. intros Heq.
  apply app_eq_same_length in Heq
    as [Hpre Hrest]; [|now rewrite ids_length, countFrom_length].
  simpl in Hrest. injection Hrest as Hv Hpost. auto.
Qed.

Lemma numbered_bounds (n : Z) vs v :
  ids vs = countFrom n (length vs) -> In v vs ->
  n <= UIVersion.id v < n + Z.of_nat (length vs).
Proof.
  intros Hn Hin. apply countFrom_In. rewrite <- Hn. now apply in_map.
Qed.

Lemma inRange_spec (n x : Z) (len : nat) :
  inRange n x len = true <-> n <= x < n + Z.of_nat len.
Proof. unfold inRange. rewrite andb_true_iff, Z.leb_le, Z.ltb_lt. tauto. Qed.

(** In a store numbered from [n], [findIndex] on an id is arithmetic. *)
Lemma numbered_findIndex (n i x : Z) vs :
  ids vs = countFrom n (length vs) ->
  findIndexFrom (fun u => UIVersion.id u =? x) vs i
  = if inRange n x (length vs) then i + (x - n) else -1.
Proof.
  revert n i; induction vs as [|u vs IH]; intros n i Hn.
  - simpl. destruct (inRange n x 0) eqn:E; [|reflexivity].
    apply inRange_spec in E. simpl in E. lia.
  - simpl in Hn. injection Hn as Hu Hrest. cbn [findIndexFrom].
    rewrite (IH (n + 1) (i + 1) Hrest).
    destruct (Z.eqb_spec (UIVersion.id u) x) as [E|E].
    + assert (inRange n x (length (u :: vs)) = true) as ->
          by (apply inRange_spec; simpl length; lia).
      lia.
    + destruct (inRange (n + 1) x (length vs)) eqn:E1.
      * apply inRange_spec in E1.
        assert (inRange n x (length (u :: vs)) = true) as ->
            by (apply inRange_spec; simpl length; lia).
        lia.
      * destruct (inRange n x (length (u :: vs))) eqn:E2; [|reflexivity].
        apply inRange_spec in E2. simpl length in E2.
        assert (inRange (n + 1) x (length vs) = true)
          by (apply inRange_spec; lia).
        congruence.
Qed.

Lemma numbered_firstn (n : Z) pre v post :
  ids (pre ++ v :: post) = countFrom n (length (pre ++ v :: post)) ->
  firstn (Z.to_nat (UIVersion.id v - n + 1)) (pre ++ v :: post) = pre ++ [v].
Proof.
  intros Hn. destruct (numbered_split _ _ _ _ Hn) as (_ & Hv & _).
  replace (Z.to_nat (UIVersion.id v - n + 1)) with (length pre + 1)%nat by lia.
  rewrite firstn_app.
  replace (length pre + 1 - length pre)%nat with 1%nat by lia.
  rewrite firstn_all2 by lia. reflexivity.
Qed.

Lemma numbered_prefix (n : Z) vs v :
  ids vs = countFrom n (length vs) -> In v vs ->
  exists pre post,
    vs = pre ++ v :: post /\
    UIVersion.id v = n + Z.of_nat (length pre) /\
    firstn (Z.to_nat (UIVersion.id v - n + 1)) vs = pre ++ [v].
Proof.
  intros Hn Hin. destruct (in_split _ _ Hin) as (pre & post & ->).
  exists pre, post. destruct (numbered_split _ _ _ _ Hn) as (_ & Hv & _).
  split; [reflexivity|]. split; [exact Hv|]. now apply numbered_firstn.
Qed.

(** What [restoreVersion] leaves of a store numbered from [n]: the
    snapshots up to the given id if the store has that id, none if not. *)
Lemma restoreVersion_versions (n : Z) s v :
  ids (versions s) = countFrom n (length (versions s)) ->
  versions (restoreVersion v s)
  = if inRange n (UIVersion.id v) (length (versions s))
    then firstn (Z.to_nat (UIVersion.id v - n + 1)) (versions s)
    else [].
Proof.
  intros Hn. cbn [restoreVersion versions]. unfold findIndex.
  rewrite (numbered_findIndex n 0 _ _ Hn).
  destruct (inRange n (UIVersion.id v) (length (versions s))) eqn:E.
  - apply inRange_spec in E. rewrite slice_prefix by lia. f_equal; lia.
  - change (-1 + 1) with 0. now rewrite slice_prefix by lia.
Qed.

Lemma restoreVersion_present (n : Z) s v :
  ids (versions s) = countFrom n (length (versions s)) ->
  In v (versions s) ->
  versions (restoreVersion v s)
  = firstn (Z.to_nat (UIVersion.id v - n + 1)) (versions s).
Proof.
  intros Hn Hin. rewrite (restoreVersion_versions n) by assumption.
  pose proof (numbered_bounds _ _ _ Hn Hin) as Hb.
  apply inRange_spec in Hb. now rewrite Hb.
Qed.

(** ** The numbering invariants *)

Lemma wellNumbered_consecutive s : wellNumbered s -> consecutive s.
Proof.
  intros [Hids Hc]. unfold consecutive. rewrite Hids, Hc. f_equal. lia.
Qed.

Lemma initial_wellNumbered : wellNumbered (session (@initial Json)).
Proof. split; reflexivity. Qed.

Lemma submit_wellNumbered prompt isRefinement s :
  wellNumbered s -> wellNumbered (fst (submit prompt isRefinement s)).
Proof.
  intros Hs. unfold submit.
  destruct (negb (nonEmpty (trim prompt)) || isThinking (state s)); [exact Hs|].
  destruct isRefinement; [exact Hs|]. split; reflexivity.
Qed.

Lemma submitResume_wellNumbered p r now s :
  wellNumbered s -> wellNumbered (submitResume p r now s).
Proof.
  intros [Hids Hc]. unfold submitResume.
  destruct (received r) as [err|[msgs text]]; [now split|].
  split; cbn [versions versionCounter].
  - rewrite ids_app, length_app, countFrom_app, <- Hids. simpl. do 2 f_equal. lia.
  - rewrite length_app. simpl. lia.
Qed.

Lemma turn_wellNumbered prompt isRefinement r now h :
  wellNumbered (session h) ->
  wellNumbered (session (turn prompt isRefinement r now h)).
Proof.
  intros Hw. unfold turn.
  assert (Hw1 : wellNumbered (session (step h (Submit prompt isRefinement)))).
  { cbn [step]. pose proof (submit_wellNumbered prompt isRefinement _ Hw) as Hs.
    destruct (submit prompt isRefinement (session h)); exact Hs. }
  cbn [step]. destruct (nth_error _ _); [|exact Hw1].
  now apply submitResume_wellNumbered.
Qed.

Lemma submit_consecutive prompt isRefinement s :
  consecutive s -> consecutive (fst (submit prompt isRefinement s)).
Proof.
  intros Hs. unfold submit.
  destruct (negb (nonEmpty (trim prompt)) || isThinking (state s)); [exact Hs|].
  destruct isRefinement; [exact Hs|]. reflexivity.
Qed.

Lemma submitResume_consecutive p r now s :
  consecutive s -> consecutive (submitResume p r now s).
Proof.
  unfold consecutive. intros Hids. unfold submitResume.
  destruct (received r) as [err|[msgs text]]; [exact Hids|].
  cbn [versions versionCounter].
  rewrite ids_app, length_app, countFrom_app, Hids. simpl.
  f_equal; [f_equal; lia|]. f_equal. lia.
Qed.

(** Whatever snapshot it is given, one of the store or not. *)
Lemma restoreVersion_consecutive v s :
  consecutive s -> consecutive (restoreVersion v s).
Proof.
  unfold consecutive. intros Hids.
  set (n := versionCounter s + 1 - Z.of_nat (length (versions s))) in *.
  rewrite (restoreVersion_versions n s v Hids).
  cbn [restoreVersion versionCounter].
  destruct (inRange n (UIVersion.id v) (length (versions s))) eqn:E;
    [|reflexivity].
  apply inRange_spec in E.
  assert (Hlen : length (firstn (Z.to_nat (UIVersion.id v - n + 1)) (versions s))
                 = Z.to_nat (UIVersion.id v - n + 1))
    by (rewrite length_firstn; lia).
  rewrite Hlen. unfold ids. rewrite <- firstn_map. fold (ids (versions s)).
  rewrite Hids, countFrom_firstn by lia. f_equal. lia.
Qed.

Lemma step_consecutive h e :
  consecutive (session h) -> consecutive (session (step h e)).
Proof.
  intros Hw. destruct e as [prompt isRef|k r now|i| | |]; cbn [step].
  - pose proof (submit_consecutive prompt isRef _ Hw) as Hs.
    destruct (submit prompt isRef (session h)); exact Hs.
  - destruct (nth_error (inflight h) k); [|exact Hw].
    now apply submitResume_consecutive.
  - destruct (nth_error _ i); [|exact Hw]. unfold preview. now destruct (_ =? _).
  - destruct (previewVersion h); [|exact Hw].
    now apply restoreVersion_consecutive.
  - exact Hw.
  - reflexivity.
Qed.

Lemma run_consecutive evs h :
  consecutive (session h) -> consecutive (session (run h evs)).
Proof.
  revert h; induction evs as [|e evs IH]; intros h Hw; [exact Hw|].
  apply (IH (step h e)). now apply step_consecutive.
Qed.

(** However the component is driven, the ids of its store are
    consecutive and its counter stands at the last of them. *)
Lemma reachable_consecutive evs :
  consecutive (session (run (@initial Json) evs)).
Proof. apply run_consecutive. reflexivity. Qed.

(** ** The guard of [submit] *)

Lemma submit_rejected prompt isRefinement s :
  trim prompt = [] \/ state s = thinking ->
  submit prompt isRefinement s = (s, None).
Proof.
  intros [Ht|Hs]; unfold submit.
  - now rewrite Ht.
  - rewrite Hs. now rewrite orb_true_r.
Qed.

Lemma submit_accepted prompt isRefinement s :
  nonEmpty (trim prompt) = true -> state s <> thinking ->
  submit prompt isRefinement s =
  (if isRefinement then
     {| state := thinking; a2uiMessages := a2uiMessages s;
        lastPrompt := trim prompt; errorMsg := []; input := [];
        history := history s; versions := versions s;
        activeVersionId := activeVersionId s;
        versionCounter := versionCounter s |}
   else
     {| state := thinking; a2uiMessages := []; lastPrompt := trim prompt;
        errorMsg := []; input := []; history := []; versions := [];
        activeVersionId := activeVersionId s; versionCounter := 0 |},
   Some (mkPending (trim prompt) (if isRefinement then history s else []))).
Proof.
  intros Ht Hs. unfold submit. rewrite Ht.
  assert (isThinking (state s) = false) as -> by (destruct (state s); simpl; congruence).
  now destruct isRefinement.
Qed.

Lemma home_eta h :
  {| session := session h; previewVersion := previewVersion h;
     inflight := inflight h |} = h.
Proof. now destruct h. Qed.

Lemma step_submit_rejected prompt isRefinement h :
  trim prompt = [] \/ state (session h) = thinking ->
  step h (Submit prompt isRefinement) = h.
Proof.
  intros Hg. cbn [step]. rewrite (submit_rejected _ _ _ Hg).
  cbn [optList]. rewrite app_nil_r. apply home_eta.
Qed.

Lemma step_submit_accepted prompt isRefinement h :
  nonEmpty (trim prompt) = true -> state (session h) <> thinking ->
  step h (Submit prompt isRefinement) =
  {| session := fst (submit prompt isRefinement (session h));
     previewVersion := previewVersion h;
     inflight := inflight h ++
       [mkPending (trim prompt)
                  (if isRefinement then history (session h) else [])] |}.
Proof.
  intros Ht Hs. cbn [step]. now rewrite (submit_accepted _ _ _ Ht Hs).
Qed.

Lemma nth_error_last {A} (l : list A) (x : A) :
  nth_error (l ++ [x]) (length l) = Some x.
Proof. rewrite nth_error_app2, Nat.sub_diag by lia. reflexivity. Qed.

Lemma dropNth_last {A} (l : list A) (x : A) :
  dropNth (length l) (l ++ [x]) = l.
Proof.
  unfold dropNth.
  rewrite skipn_all2 by (rewrite length_app; simpl; lia).
  rewrite firstn_app, Nat.sub_diag, firstn_all. simpl.
  now rewrite !app_nil_r.
Qed.

(** A turn whose call passes the guard resumes the call it has just
    suspended. *)
Lemma turn_accepted prompt isRefinement r now h :
  nonEmpty (trim prompt) = true -> state (session h) <> thinking ->
  turn prompt isRefinement r now h =
  {| session :=
       submitResume
         (mkPending (trim prompt)
                    (if isRefinement then history (session h) else []))
         r now (fst (submit prompt isRefinement (session h)));
     previewVersion := previewVersion h;
     inflight := inflight h |}.
Proof.
  intros Ht Hs. unfold turn. rewrite (step_submit_accepted _ _ _ Ht Hs).
  cbn [step inflight session previewVersion].
  now rewrite nth_error_last, dropNth_last.
Qed.

Lemma turn_rejected prompt isRefinement r now h :
  trim prompt = [] \/ state (session h) = thinking ->
  turn prompt isRefinement r now h = h.
Proof.
  intros Hg. unfold turn. rewrite (step_submit_rejected _ _ _ Hg).
  cbn [step].
  assert (nth_error (inflight h) (length (inflight h)) = None) as ->
      by (apply nth_error_None; lia).
  reflexivity.
Qed.

Lemma nonEmpty_false (x : jsstring) : nonEmpty x = false -> x = [].
Proof. now destruct x. Qed.

Lemma guard_cases prompt s :
  (trim prompt = [] \/ state s = thinking) \/
  (nonEmpty (trim prompt) = true /\ state s <> thinking).
Proof.
  destruct (nonEmpty (trim prompt)) eqn:E.
  - destruct (state s); (try now (left; right)); right; split; congruence.
  - left; left. now apply nonEmpty_false.
Qed.

(** The guard as far as it goes.  A call of [submit] whose prompt trims
    to the empty string, or that is made while the state is [thinking],
    changes no field of the component and sends no request.  When a
    first call has been accepted, the state is [thinking]; a second call
    made right then changes nothing, and the successful settling of the
    first request adds exactly one snapshot and leaves no request of
    these two calls pending. *)
Theorem submit_guard_noop :
  (forall prompt isRefinement h,
      trim prompt = [] \/ state (session h) = thinking ->
      submit prompt isRefinement (session h) = (session h, None) /\
      step h (Submit prompt isRefinement) = h) /\
  (forall prompt1 isRef1 prompt2 isRef2 r now msgs text h,
      nonEmpty (trim prompt1) = true -> state (session h) <> thinking ->
      received r = inr (msgs, text) ->
      let h1 := step h (Submit prompt1 isRef1) in
      let h2 := step h1 (Submit prompt2 isRef2) in
      let h3 := step h2 (Settle (length (inflight h)) r now) in
      state (session h1) = thinking /\
      length (inflight h1) = S (length (inflight h)) /\
      h2 = h1 /\
      inflight h3 = inflight h /\
      exists v, versions (session h3) = versions (session h1) ++ [v]).
Proof.
  split.
  - intros prompt isRefinement h Hg. split.
    + now apply submit_rejected.
    + now apply step_submit_rejected.
  - intros prompt1 isRef1 prompt2 isRef2 r now msgs text h Ht Hs Hr h1 h2 h3.
    assert (Hth : state (session h1) = thinking).
    { unfold h1. rewrite (step_submit_accepted _ _ _ Ht Hs).
      cbn [session]. rewrite (submit_accepted _ _ _ Ht Hs).
      now destruct isRef1. }
    assert (H21 : h2 = h1) by (apply step_submit_rejected; now right).
    split; [exact Hth|]. split.
    { unfold h1. rewrite (step_submit_accepted _ _ _ Ht Hs).
      cbn [inflight]. rewrite length_app. simpl. lia. }
    split; [exact H21|].
    unfold h3. rewrite H21. unfold h1 at 1 2.
    change (step (step h (Submit prompt1 isRef1))
                 (Settle (length (inflight h)) r now))
      with (turn prompt1 isRef1 r now h).
    rewrite (turn_accepted _ _ _ _ _ Ht Hs). cbn [inflight session].
    split; [reflexivity|].
    unfold submitResume. rewrite Hr. cbn [versions].
    unfold h1. rewrite (step_submit_accepted _ _ _ Ht Hs). cbn [session].
    eexists. reflexivity.
Qed.

(** ** Failure *)

Lemma submitResume_failed p r now s err :
  received r = inl err ->
  submitResume p r now s =
  {| state := error; a2uiMessages := a2uiMessages s;
     lastPrompt := lastPrompt s; errorMsg := caughtMessage err;
     input := input s; history := history s; versions := versions s;
     activeVersionId := activeVersionId s;
     versionCounter := versionCounter s |}.
Proof. intros Hr. unfold submitResume. now rewrite Hr. Qed.

(** C2, as the code has it.  When the generation of a turn fails,
    [activeVersionId] is what it was before the call; for a refinement
    so are the turn log and the version store, while a non-refinement
    call has emptied both before it sent the request and they stay
    empty.  The failure itself writes the message and the [error] state
    and nothing else. *)
Theorem failed_turn_history prompt isRefinement r now err h
  (Hfail : received r = inl err) :
  let h' := turn prompt isRefinement r now h in
  activeVersionId (session h') = activeVersionId (session h) /\
  (isRefinement = true ->
   history (session h') = history (session h) /\
   versions (session h') = versions (session h)) /\
  (nonEmpty (trim prompt) = true -> state (session h) <> thinking ->
   state (session h') = error /\
   errorMsg (session h') = caughtMessage err /\
   (isRefinement = false ->
    history (session h') = [] /\ versions (session h') = [])) /\
  (forall k p, nth_error (inflight h) k = Some p ->
   session (step h (Settle k r now)) =
   {| state := error; a2uiMessages := a2uiMessages (session h);
      lastPrompt := lastPrompt (session h); errorMsg := caughtMessage err;
      input := input (session h); history := history (session h);
      versions := versions (session h);
      activeVersionId := activeVersionId (session h);
      versionCounter := versionCounter (session h) |}).
Proof.
  intros h'. unfold h'.
  destruct (guard_cases prompt (session h)) as [Hg|[Ht Hs]].
  - rewrite (turn_rejected _ _ _ _ _ Hg).
    split; [reflexivity|]. split; [now intros _|]. split.
    + intros Ht Hs. exfalso.
      destruct Hg as [Hg|Hg]; [rewrite Hg in Ht; discriminate|contradiction].
    + intros k p Hk. cbn [step]. rewrite Hk. cbn [session].
      now apply submitResume_failed.
  - rewrite (turn_accepted _ _ _ _ _ Ht Hs). cbn [session].
    rewrite (submitResume_failed _ _ _ _ _ Hfail).
    rewrite (submit_accepted _ _ _ Ht Hs). cbn [fst].
    repeat split; try (now destruct isRefinement).
    intros k p Hk. cbn [step]. rewrite Hk. cbn [session].
    now apply submitResume_failed.
Qed.

(** ** What [submit] sends *)

(** C8. A call that passes the guard: without the refinement flag it
    empties the turn log and the version store and sets the counter to
    zero before the request goes out, and the request carries the empty
    history; with the flag the request carries the session's turn log,
    and log, store and counter stay as they are. *)
Theorem submit_context prompt s
  (Hprompt : nonEmpty (trim prompt) = true) (Hstate : state s <> thinking) :
  (exists s',
      submit prompt false s = (s', Some (mkPending (trim prompt) [])) /\
      state s' = thinking /\
      history s' = [] /\ versions s' = [] /\ versionCounter s' = 0) /\
  (exists s',
      submit prompt true s = (s', Some (mkPending (trim prompt) (history s))) /\
      state s' = thinking /\
      history s' = history s /\ versions s' = versions s /\
      versionCounter s' = versionCounter s).
Proof.
  split; rewrite (submit_accepted _ _ _ Hprompt Hstate);
    eexists; (split; [reflexivity|]); repeat split.
Qed.

(** ** Preview *)

(** C9. Clicking a pill of the timeline, and closing the modal, leave
    the session and the suspended calls as they are; the click shows the
    snapshot unless it is the active one, and a second click on the same
    pill changes nothing at all, so both show the same view. *)
Theorem preview_readonly v h :
  session (preview v h) = session h /\
  inflight (preview v h) = inflight h /\
  session (closePreview h) = session h /\
  inflight (closePreview h) = inflight h /\
  (UIVersion.id v <> activeVersionId (session h) ->
   previewView (preview v h) = Some v) /\
  preview v (preview v h) = preview v h /\
  previewView (preview v (preview v h)) = previewView (preview v h).
Proof.
  assert (Hidem : preview v (preview v h) = preview v h).
  { unfold preview.
    destruct (UIVersion.id v =? activeVersionId (session h)) eqn:E.
    - now rewrite E.
    - cbn [session]. now rewrite E. }
  repeat split.
  - unfold preview. now destruct (_ =? _).
  - unfold preview. now destruct (_ =? _).
  - intros Hne. unfold previewView, preview.
    destruct (Z.eqb_spec (UIVersion.id v) (activeVersionId (session h)));
      [contradiction|reflexivity].
  - exact Hidem.
  - now rewrite Hidem.
Qed.

(** ** Restore *)


Lemma numbered_later_absent (n : Z) pre v post u :
  ids (pre ++ v :: post) = countFrom n (length (pre ++ v :: post)) ->
  In u post -> ~ In u (pre ++ [v]).
Proof.
  intros Hn Hu Hin.
  destruct (numbered_split _ _ _ _ Hn) as (Hpre & Hv & Hpost).
  pose proof (numbered_bounds _ _ _ Hpost Hu) as Hb.
  apply in_app_or in Hin as [Hin|[->|[]]]; [|lia].
  pose proof (numbered_bounds _ _ _ Hpre Hin). lia.
Qed.

(** C4. In whatever session the component has come to, restoring a
    snapshot [v] of the store cuts the store down to the snapshots up to
    and including [v], none of the later ones remaining, sets the turn
    log, the messages and the prompt to those of [v], makes [v] the
    active snapshot, sets the counter to the id of [v] and the state to
    [rendered]. *)
Theorem restore_truncates evs v
  (Hin : In v (versions (session (run (@initial Json) evs)))) :
  let s := session (run initial evs) in
  exists pre post,
    versions s = pre ++ v :: post /\
    restoreVersion v s =
    {| state := rendered; a2uiMessages := UIVersion.messages v;
       lastPrompt := UIVersion.prompt v; errorMsg := errorMsg s;
       input := input s; history := UIVersion.history v;
       versions := pre ++ [v];
       activeVersionId := UIVersion.id v;
       versionCounter := UIVersion.id v |} /\
    (forall u, In u post -> ~ In u (pre ++ [v])) /\
    session (restoreAndClose v (run initial evs)) = restoreVersion v s.
Proof.
  intros s. pose proof (reachable_consecutive evs) as Hids.
  fold s in Hids, Hin. unfold consecutive in Hids.
  set (n := versionCounter s + 1 - Z.of_nat (length (versions s))) in *.
  destruct (numbered_prefix n _ _ Hids Hin) as (pre & post & Hvs & Hid & Hfirst).
  exists pre, post. split; [exact Hvs|]. split; [|split].
  - pose proof (restoreVersion_present n s v Hids Hin) as Hr.
    rewrite Hfirst in Hr. unfold restoreVersion in *. cbn [versions] in Hr.
    now rewrite Hr.
  - intros u Hu. rewrite Hvs in Hids.
    now apply (numbered_later_absent n _ _ post).
  - reflexivity.
Qed.

(** ** Successful turns *)

Lemma submitResume_generated p r now s msgs text :
  received r = inr (msgs, text) ->
  submitResume p r now s =
  {| state := rendered; a2uiMessages := msgs; lastPrompt := lastPrompt s;
     errorMsg := errorMsg s; input := input s;
     history := newHistory p msgs text;
     versions :=
       versions s ++ [newVersion (versionCounter s + 1) p msgs text now];
     activeVersionId := versionCounter s + 1;
     versionCounter := versionCounter s + 1 |}.
Proof. intros Hr. unfold submitResume. now rewrite Hr. Qed.

(** The session a successful turn ends in. *)
Lemma turn_generated prompt isRefinement r now msgs text h :
  nonEmpty (trim prompt) = true -> state (session h) <> thinking ->
  received r = inr (msgs, text) ->
  let s := session h in
  let p := mkPending (trim prompt) (if isRefinement then history s else []) in
  let counter := (if isRefinement then versionCounter s else 0) + 1 in
  session (turn prompt isRefinement r now h) =
  {| state := rendered; a2uiMessages := msgs; lastPrompt := trim prompt;
     errorMsg := []; input := []; history := newHistory p msgs text;
     versions := (if isRefinement then versions s else []) ++
                 [newVersion counter p msgs text now];
     activeVersionId := counter; versionCounter := counter |}.
Proof.
  intros Ht Hs Hr s p counter.
  rewrite (turn_accepted _ _ _ _ _ Ht Hs). cbn [session].
  rewrite (submitResume_generated _ _ _ _ _ _ Hr).
  rewrite (submit_accepted _ _ _ Ht Hs). cbn [fst].
  now destruct isRefinement.
Qed.

Lemma restore_state v s : state (restoreVersion v s) <> thinking.
Proof. discriminate. Qed.

(** C5. In a store numbered [1..n], after the restore of one of its
    snapshots [v], a successful submission from the screen the restore
    leads to, whose refine bar submits with the refinement flag, creates
    a snapshot with the id of [v] plus one, and the store is then the
    old store up to and including [v] followed by the new snapshot, so
    that its ids are [1 .. id v + 1] and nothing that came after [v] is
    left. *)
Theorem restore_then_refine h v prompt r now msgs text
  (Hnum : ids (versions (session h))
          = countFrom 1 (length (versions (session h))))
  (Hin : In v (versions (session h)))
  (Hprompt : nonEmpty (trim prompt) = true)
  (Hok : received r = inr (msgs, text)) :
  let h' := turn prompt true r now (restoreAndClose v h) in
  exists pre post new,
    versions (session h) = pre ++ v :: post /\
    versions (session h') = pre ++ [v; new] /\
    new = newVersion (UIVersion.id v + 1)
                     (mkPending (trim prompt) (UIVersion.history v))
                     msgs text now /\
    UIVersion.id new = UIVersion.id v + 1 /\
    versionCounter (session h') = UIVersion.id v + 1 /\
    ids (versions (session h'))
    = countFrom 1 (Z.to_nat (UIVersion.id v + 1)).
Proof.
  intros h'.
  destruct (numbered_prefix 1 _ _ Hnum Hin) as (pre & post & Hvs & Hid & Hfirst).
  pose proof (restoreVersion_present 1 _ v Hnum Hin) as Hr.
  rewrite Hfirst in Hr.
  assert (Hs : session h' =
    {| state := rendered; a2uiMessages := msgs; lastPrompt := trim prompt;
       errorMsg := []; input := [];
       history := newHistory (mkPending (trim prompt) (UIVersion.history v))
                             msgs text;
       versions := (pre ++ [v]) ++
         [newVersion (UIVersion.id v + 1)
                     (mkPending (trim prompt) (UIVersion.history v))
                     msgs text now];
       activeVersionId := UIVersion.id v + 1;
       versionCounter := UIVersion.id v + 1 |}).
  { assert (Hst : state (session (restoreAndClose v h)) <> thinking)
      by apply restore_state.
    unfold h'. rewrite (turn_generated _ true _ now _ _ _ Hprompt Hst Hok).
    cbn [restoreAndClose closePreview session]. rewrite Hr. reflexivity. }
  exists pre, post. eexists. split; [exact Hvs|].
  rewrite Hs. cbn [versions versionCounter]. rewrite <- app_assoc.
  split; [reflexivity|]. split; [reflexivity|]. split; [reflexivity|].
  split; [reflexivity|].
  rewrite Hvs in Hnum. destruct (numbered_split _ _ _ _ Hnum) as (Hpre & Hv & _).
  replace (Z.to_nat (UIVersion.id v + 1)) with (length pre + 2)%nat by lia.
  rewrite ids_app, countFrom_app, Hpre. simpl. do 3 f_equal; lia.
Qed.

(** ** Sequences of successful turns *)

Lemma turns_numbering ts : forall h,
  Forall successful ts ->
  state (session h) <> thinking -> wellNumbered (session h) ->
  let h' := turns ts h in
  wellNumbered (session h') /\ state (session h') <> thinking /\
  length (versions (session h'))
  = fold_left (fun n (t : Turn) =>
                 let '(_, isRefinement, _, _) := t in
                 if isRefinement : bool then S n else 1%nat)
              ts (length (versions (session h))).
Proof.
  induction ts as [|[[[prompt isRef] r] now] ts IH]; intros h Hall Hs Hw.
  - split; [exact Hw|split; [exact Hs|reflexivity]].
  - inversion Hall as [|? ? Hsucc Hall']; subst.
    destruct Hsucc as [Ht Hg].
    unfold generates in Hg.
    destruct (received r) as [|[msgs text]] eqn:Hr; [discriminate|].
    pose proof (turn_generated _ isRef _ now _ _ _ Ht Hs Hr) as Hturn.
    cbn zeta in Hturn.
    assert (Hw' : wellNumbered (session (turn prompt isRef r now h)))
      by now apply turn_wellNumbered.
    assert (Hs' : state (session (turn prompt isRef r now h)) <> thinking)
      by (rewrite Hturn; discriminate).
    destruct (IH _ Hall' Hs' Hw') as (Hw2 & Hs2 & Hlen).
    cbn [turns fold_left]. fold (turns ts (turn prompt isRef r now h)).
    split; [exact Hw2|]. split; [exact Hs2|].
    cbn zeta in Hlen. rewrite Hlen. f_equal.
    rewrite Hturn. cbn [versions]. rewrite length_app.
    destruct isRef; simpl; lia.
Qed.

(** C6. After any sequence of successful turns from the start, the ids
    of the store are [1; 2; ...] without a gap, as many as the lineage is
    long, and the counter stands at the last of them.  Each successful
    turn gives its snapshot the counter's value plus one; a
    non-refinement turn first sets the counter to zero, so that its
    snapshot has id 1 and is the only one, and so does [reset]. *)
Theorem snapshot_ids_contiguous ts (Hok : Forall successful ts) :
  let s := session (turns ts (@initial Json)) in
  ids (versions s) = countFrom 1 (length (versions s)) /\
  versionCounter s = Z.of_nat (length (versions s)) /\
  length (versions s) = lineageLength ts /\
  (forall h prompt isRefinement r now,
      successful (prompt, isRefinement, r, now) ->
      state (session h) <> thinking ->
      let s' := session (turn prompt isRefinement r now h) in
      let counter :=
        (if isRefinement then versionCounter (session h) else 0) + 1 in
      exists new,
        versions s' =
        (if isRefinement then versions (session h) else []) ++ [new] /\
        UIVersion.id new = counter /\ versionCounter s' = counter) /\
  (forall s0, versionCounter (reset s0) = 0 /\ versions (reset s0) = []).
Proof.
  intros s.
  destruct (turns_numbering ts initial Hok) as ((Hids & Hc) & _ & Hlen);
    [discriminate|apply initial_wellNumbered|].
  split; [exact Hids|]. split; [exact Hc|]. split; [exact Hlen|]. split.
  - intros h prompt isRefinement r now [Ht Hg] Hs s' counter.
    unfold generates in Hg.
    destruct (received r) as [|[msgs text]] eqn:Hr; [discriminate|].
    unfold s'. rewrite (turn_generated _ isRefinement _ now _ _ _ Ht Hs Hr).
    cbn [versions versionCounter]. eexists. split; [reflexivity|].
    split; reflexivity.
  - intros s0. split; reflexivity.
Qed.

(** ** The turn log *)


Lemma evenLength_two (l : list HistoryTurn.t) (a b : HistoryTurn.t) :
  evenLength l -> evenLength (l ++ [a; b]).
Proof.
  unfold evenLength. rewrite length_app, Nat.even_add. now intros ->.
Qed.

Lemma slice_incl {A} (a b : Z) (l : list A) : incl (slice a b l) l.
Proof.
  unfold slice. intros x Hx. apply firstn_incl in Hx.
  rewrite <- (firstn_skipn (Z.to_nat (relIndex (Z.of_nat (length l)) a)) l).
  apply in_or_app. now right.
Qed.

Lemma dropNth_incl {A} (k : nat) (l : list A) : incl (dropNth k l) l.
Proof.
  unfold dropNth. intros x Hx. apply in_app_or in Hx as [Hx|Hx].
  - now apply (firstn_incl k).
  - rewrite <- (firstn_skipn (S k) l). apply in_or_app. now right.
Qed.

Lemma Forall_incl {A} (P : A -> Prop) (l l' : list A) :
  incl l' l -> Forall P l -> Forall P l'.
Proof.
  intros Hi Hl. apply Forall_forall. intros x Hx.
  rewrite Forall_forall in Hl. auto.
Qed.

Lemma initial_logsEven : logsEven (@initial Json).
Proof. repeat split; constructor. Qed.

Lemma step_logsEven h e : logsEven h -> logsEven (step h e).
Proof.
  intros Hall. pose proof Hall as (Hh & Hvs & Hps & Hpv).
  destruct e as [prompt isRef|k r now|i| | |]; cbn [step].
  - destruct (guard_cases prompt (session h)) as [Hg|[Ht Hs]].
    + rewrite (submit_rejected _ _ _ Hg). cbn [optList]. rewrite app_nil_r.
      now repeat split.
    + rewrite (submit_accepted _ _ _ Ht Hs).
      destruct isRef; repeat split;
        cbn [session inflight history versions previewVersion];
        auto; try (apply Forall_app; split; auto); try constructor;
        auto; try constructor.
  - destruct (nth_error (inflight h) k) as [p|] eqn:Hk; [|now repeat split].
    assert (Hp : evenLength (historyToSend p)).
    { rewrite Forall_forall in Hps. apply Hps. now apply (nth_error_In _ k). }
    assert (Hps' : Forall (fun p => evenLength (historyToSend p))
                          (dropNth k (inflight h)))
      by (apply (Forall_incl _ (inflight h)); [apply dropNth_incl|exact Hps]).
    unfold submitResume. destruct (received r) as [err|[msgs text]].
    + now repeat split.
    + repeat split; cbn [session inflight history versions previewVersion];
        auto.
      * now apply evenLength_two.
      * apply Forall_app. split; [exact Hvs|]. constructor; [|constructor].
        now apply evenLength_two.
  - destruct (nth_error (versions (session h)) i) as [v|] eqn:Hi;
      [|now repeat split].
    unfold preview. destruct (_ =? _); [now repeat split|].
    repeat split; cbn [session inflight previewVersion optList]; auto.
    constructor; [|constructor].
    rewrite Forall_forall in Hvs. apply Hvs. now apply (nth_error_In _ i).
  - destruct (previewVersion h) as [v|] eqn:Hv; [|exact Hall].
    inversion Hpv as [|? ? Hev _]; subst.
    repeat split;
      cbn [restoreAndClose closePreview restoreVersion session inflight
           history versions previewVersion optList]; auto.
    apply (Forall_incl _ (versions (session h))); [apply slice_incl|exact Hvs].
  - repeat split; cbn [closePreview session inflight previewVersion optList];
      auto.
  - repeat split; cbn [session inflight previewVersion reset history versions];
      auto; constructor.
Qed.

Lemma run_logsEven evs h : logsEven h -> logsEven (run h evs).
Proof.
  revert h; induction evs as [|e evs IH]; intros h Hl; [exact Hl|].
  apply (IH (step h e)). now apply step_logsEven.
Qed.



(** ** Branching *)

(** A prefix of a numbered store that still holds a snapshot holds
    everything before it too. *)
Lemma numbered_firstn_keeps (n : Z) (m : nat) pre v post :
  ids (pre ++ v :: post) = countFrom n (length (pre ++ v :: post)) ->
  In v (firstn m (pre ++ v :: post)) ->
  exists post', firstn m (pre ++ v :: post) = pre ++ v :: post'.
Proof.
  intros Hn Hin. destruct (numbered_split _ _ _ _ Hn) as (Hpre & Hv & _).
  destruct (Nat.le_gt_cases m (length pre)) as [Hle|Hgt].
  - exfalso. rewrite firstn_app in Hin.
    replace (m - length pre)%nat with 0%nat in Hin by lia.
    simpl in Hin. rewrite app_nil_r in Hin. apply firstn_incl in Hin.
    pose proof (numbered_bounds _ _ _ Hpre Hin). lia.
  - rewrite firstn_app, firstn_all2 by lia.
    destruct (m - length pre)%nat as [|m'] eqn:E; [lia|].
    simpl. now eexists.
Qed.

Lemma step_keeps h e pre v post :
  consecutive (session h) -> versions (session h) = pre ++ v :: post ->
  In v (versions (session (step h e))) ->
  exists post', versions (session (step h e)) = pre ++ v :: post'.
Proof.
  intros Hids Hvs Hin. unfold consecutive in Hids.
  destruct e as [prompt isRef|k r now|i| | |]; cbn [step] in *.
  - destruct (guard_cases prompt (session h)) as [Hg|[Ht Hs]].
    + rewrite (submit_rejected _ _ _ Hg). cbn [session]. eauto.
    + rewrite (submit_accepted _ _ _ Ht Hs) in *. cbn [session] in *.
      destruct isRef; cbn [versions] in *; [eauto|contradiction].
  - destruct (nth_error (inflight h) k) as [p|]; [|eauto].
    cbn [session]. unfold submitResume.
    destruct (received r) as [err|[msgs text]]; cbn [versions]; [eauto|].
    rewrite Hvs, <- app_assoc. simpl. eauto.
  - destruct (nth_error _ i); [|eauto].
    unfold preview. destruct (_ =? _); cbn [session]; eauto.
  - destruct (previewVersion h) as [u|]; [|eauto].
    cbn [restoreAndClose closePreview session] in *.
    rewrite (restoreVersion_versions _ _ u Hids) in *.
    destruct (inRange _ _ _); [|contradiction].
    rewrite Hvs in *. now apply (numbered_firstn_keeps _ _ _ _ _ Hids).
  - cbn [closePreview session]. eauto.
  - cbn [session reset versions] in Hin. contradiction.
Qed.

Lemma run_keeps evs : forall h pre v post,
  consecutive (session h) -> versions (session h) = pre ++ v :: post ->
  kept v h evs ->
  consecutive (session (run h evs)) /\
  exists post', versions (session (run h evs)) = pre ++ v :: post'.
Proof.
  induction evs as [|e evs IH]; intros h pre v post Hw Hvs Hk.
  - split; [exact Hw|eauto].
  - destruct Hk as [_ Hk].
    assert (Hin : In v (versions (session (step h e))))
      by (destruct evs; apply Hk).
    destruct (step_keeps _ _ _ _ _ Hw Hvs Hin) as [post' Hvs'].
    apply (IH (step h e) pre v post'); auto.
    now apply step_consecutive.
Qed.

(** [submit] reads of the session only its state, its history and what
    it copies. *)
Lemma submit_same prompt isRefinement s1 s2 :
  nonEmpty (trim prompt) = true ->
  state s1 <> thinking -> state s2 <> thinking ->
  a2uiMessages s1 = a2uiMessages s2 -> history s1 = history s2 ->
  versions s1 = versions s2 -> activeVersionId s1 = activeVersionId s2 ->
  versionCounter s1 = versionCounter s2 ->
  submit prompt isRefinement s1 = submit prompt isRefinement s2.
Proof.
  intros Ht H1 H2 Ha Hh Hv Hi Hc.
  rewrite !submit_accepted by assumption.
  now rewrite Ha, Hh, Hv, Hi, Hc.
Qed.

(** C3. Let a snapshot [v] be created by the successful settling of a
    request, in whatever state the component has come to, and let it
    stay in the store through whatever events follow.  Then a
    refinement submitted after [v] is restored sends the same request,
    with the stored history of [v], and leaves the same session,
    whatever way the request settles and at the same clock reading, as
    the same refinement submitted right after [v] was created; when it
    succeeds, the new snapshot has the id of [v] plus one. *)
Theorem branching_deterministic evs0 k pend r0 now0 msgs0 text0 evs prompt r now
  (Hpend : nth_error (inflight (run (@initial Json) evs0)) k = Some pend)
  (Hok0 : received r0 = inr (msgs0, text0))
  (Hkept : kept (newVersion (versionCounter (session (run initial evs0)) + 1)
                            pend msgs0 text0 now0)
                (step (run initial evs0) (Settle k r0 now0)) evs)
  (Hprompt : nonEmpty (trim prompt) = true) :
  let created := step (run initial evs0) (Settle k r0 now0) in
  let v := newVersion (versionCounter (session (run initial evs0)) + 1)
                      pend msgs0 text0 now0 in
  let restored := restoreAndClose v (run created evs) in
  versions (session created) = versions (session (run initial evs0)) ++ [v] /\
  submit prompt true (session restored) = submit prompt true (session created) /\
  snd (submit prompt true (session restored))
  = Some (mkPending (trim prompt) (UIVersion.history v)) /\
  session (turn prompt true r now restored)
  = session (turn prompt true r now created) /\
  (forall msgs text, received r = inr (msgs, text) ->
   exists new,
     versions (session (turn prompt true r now restored))
     = versions (session created) ++ [new] /\
     UIVersion.id new = UIVersion.id v + 1).
Proof.
  intros created v restored.
  set (h0 := run initial evs0) in *.
  assert (Hcreated : session created =
    {| state := rendered; a2uiMessages := msgs0;
       lastPrompt := lastPrompt (session h0);
       errorMsg := errorMsg (session h0); input := input (session h0);
       history := newHistory pend msgs0 text0;
       versions := versions (session h0) ++ [v];
       activeVersionId := versionCounter (session h0) + 1;
       versionCounter := versionCounter (session h0) + 1 |}).
  { unfold created. cbn [step]. rewrite Hpend. cbn [session].
    now apply submitResume_generated. }
  assert (Hwc : consecutive (session created))
    by apply step_consecutive, reachable_consecutive.
  assert (Hvs : versions (session created) = versions (session h0) ++ [v])
    by now rewrite Hcreated.
  destruct (run_keeps evs created _ v [] Hwc Hvs Hkept)
    as [Hids [post Hlater]].
  assert (Hin : In v (versions (session (run created evs))))
    by (rewrite Hlater; apply in_or_app; right; now left).
  assert (Hrestored : versions (session restored) = versions (session created)).
  { unfold restored. cbn [restoreAndClose closePreview session].
    rewrite (restoreVersion_present _ _ v Hids Hin), Hlater, Hvs.
    apply numbered_firstn. rewrite <- Hlater. exact Hids. }
  assert (Hsr : state (session restored) <> thinking) by discriminate.
  assert (Hsc : state (session created) <> thinking)
    by (rewrite Hcreated; discriminate).
  assert (Hsame : submit prompt true (session restored)
                  = submit prompt true (session created)).
  { apply submit_same; auto; now rewrite Hcreated. }
  assert (Hturn : session (turn prompt true r now restored)
                  = session (turn prompt true r now created)).
  { rewrite !turn_accepted by assumption. cbn [session].
    rewrite Hsame. f_equal. f_equal. now rewrite Hcreated. }
  split; [exact Hvs|]. split; [exact Hsame|]. split; [|split].
  - rewrite (submit_accepted _ _ _ Hprompt Hsr). reflexivity.
  - exact Hturn.
  - intros msgs text Hr. rewrite Hturn.
    rewrite (turn_generated _ true _ now _ _ _ Hprompt Hsc Hr).
    cbn [versions]. eexists. split; [reflexivity|].
    rewrite Hcreated. reflexivity.
Qed.

End Properties.

(** * The scenarios, run *)

Example scenario1_runs :
  state (session scenario1) = rendered /\
  ids (versions (session scenario1)) = [1] /\
  length (history (session scenario1)) = 2%nat.
Proof. repeat split. Qed.

Example scenario2_runs :
  ids (versions (session scenario2)) = [1; 2] /\
  length (history (session scenario2)) = 4%nat /\
  UIVersion.history (snapshot 1 scenario2) = history (session scenario2).
Proof. repeat split. Qed.

Example scenario3_runs :
  ids (versions (session scenario3)) = [1] /\
  length (history (session scenario3)) = 2%nat /\
  activeVersionId (session scenario3) = 1 /\
  ids (versions (session
         (turn darkMode true (generatorOk threeMessages) 3000 scenario3)))
  = [1; 2].
Proof. repeat split. Qed.

Example scenario4_runs :
  let h := turn contactForm false transportError 1000 initial in
  state (session h) = error /\
  errorMsg (session h) = lit "Failed to fetch" /\
  versions (session h) = [] /\ history (session h) = [].
Proof. repeat split. Qed.

Example failures_are_told_apart :
  errorMsg (session (turn contactForm false serverError 1 initial))
  = lit "Server error: 503" /\
  errorMsg (session (turn contactForm false generatorError 1 initial))
  = lit "Cannot reach A2A agent" /\
  errorMsg (session (turn contactForm false noMessages 1 initial))
  = noUiMessage /\
  errorMsg (session (turn contactForm false (FetchRejected OtherValue) 1 initial))
  = lit "Something went wrong".
Proof. repeat split. Qed.

Example scenario2_as_events : run initial scenario2Events = scenario2.
Proof. reflexivity. Qed.

(** * The theorems at work on the scenarios *)

Lemma initial_not_thinking : state (session (@initial jsstring)) <> thinking.
Proof. discriminate. Defined.

Lemma scenario2_not_thinking : state (session scenario2) <> thinking.
Proof. discriminate. Defined.

(** A second call while the first request is out. *)
Lemma submit_guard_noop_witness :
  step (step initial (Submit contactForm false)) (Submit phoneField true)
  = step initial (Submit contactForm false) /\
  exists v,
    versions (session
      (run initial [Submit contactForm false; Submit phoneField true;
                    Settle 0 (generatorOk threeMessages) 1000]))
    = [v].
Proof.
  split.
  - apply (proj1 submit_guard_noop phoneField true
                 (step initial (Submit contactForm false))).
    right. reflexivity.
  - destruct (proj2 submit_guard_noop contactForm false phoneField true
                    (generatorOk threeMessages) 1000 threeMessages None
                    initial eq_refl initial_not_thinking eq_refl)
      as (_ & _ & _ & _ & v & Hv).
    exists v. exact Hv.
Defined.

(** C1. What the code does where the claim fails.  With two snapshots
    in the store, the modal is opened on the first, and a refinement is
    submitted: the state is [thinking] and one request is out.  The
    modal, which is mounted in every state, is then used to restore:
    the state becomes [rendered] while that request is still out.  A
    second [submit] is now accepted, so that two requests are out, and
    when both have settled two snapshots have been created, not one. *)
Theorem second_submit_after_restore :
  let pending := run initial pendingWithModal in
  let restored := step pending Restore in
  let second := step restored (Submit darkMode true) in
  let settled :=
    run second [Settle 0 (generatorOk threeMessages) 3000;
                Settle 0 (generatorOk threeMessages) 4000] in
  state (session pending) = thinking /\
  inflight pending = [mkPending phoneField (history (session scenario2))] /\
  state (session restored) = rendered /\
  inflight restored = inflight pending /\
  ids (versions (session restored)) = [1] /\
  snd (submit darkMode true (session restored))
  = Some (mkPending darkMode (UIVersion.history (snapshot 0 scenario2))) /\
  length (inflight second) = 2%nat /\
  inflight settled = [] /\
  ids (versions (session settled)) = [1; 2; 3] /\
  map UIVersion.prompt (versions (session settled))
  = [contactForm; phoneField; darkMode].
Proof. repeat split. Qed.

(** A refinement whose request the server answers with 503. *)
Lemma failed_turn_history_witness :
  let h' := turn darkMode true serverError 3000 scenario2 in
  history (session h') = history (session scenario2) /\
  versions (session h') = versions (session scenario2) /\
  state (session h') = error.
Proof.
  destruct (failed_turn_history darkMode true serverError 3000
              (ErrorObject (lit "Server error: 503")) scenario2 eq_refl)
    as (_ & Hsame & Hfailed & _).
  destruct (Hsame eq_refl) as [Hh Hv].
  destruct (Hfailed eq_refl scenario2_not_thinking) as (Hs & _).
  exact (conj Hh (conj Hv Hs)).
Defined.

(** C2 as stated fails: a non-refinement call made with two snapshots in
    the store, whose request is then rejected, ends with an empty turn
    log and an empty store. *)
Lemma failed_new_prompt_empties_history :
  let h' := turn darkMode false transportError 3000 scenario2 in
  received transportError = inl (ErrorObject (lit "Failed to fetch")) /\
  state (session h') = error /\
  history (session h') <> history (session scenario2) /\
  versions (session h') <> versions (session scenario2).
Proof.
  repeat split; discriminate.
Qed.

Lemma scenario2_first_in :
  In (snapshot 0 scenario2) (versions (session (run initial scenario2Events))).
Proof. left. reflexivity. Defined.

Lemma restore_truncates_witness :
  exists pre post,
    versions (session (run initial scenario2Events))
    = pre ++ snapshot 0 scenario2 :: post /\
    versions (restoreVersion (snapshot 0 scenario2)
                             (session (run initial scenario2Events)))
    = pre ++ [snapshot 0 scenario2].
Proof.
  destruct (restore_truncates scenario2Events (snapshot 0 scenario2)
              scenario2_first_in)
    as (pre & post & Hvs & Hr & _).
  exists pre, post. split; [exact Hvs|]. now rewrite Hr.
Defined.

Lemma restore_then_refine_witness :
  ids (versions (session
         (turn darkMode true (generatorOk threeMessages) 3000
               (restoreAndClose (snapshot 0 scenario2) scenario2))))
  = [1; 2].
Proof.
  destruct (restore_then_refine scenario2 (snapshot 0 scenario2) darkMode
              (generatorOk threeMessages) 3000 threeMessages None
              eq_refl (or_introl eq_refl) eq_refl eq_refl)
    as (pre & post & new & _ & _ & _ & _ & _ & Hids).
  exact Hids.
Defined.

Lemma twoTurns_successful : Forall successful twoTurns.
Proof. repeat constructor. Defined.

Lemma snapshot_ids_contiguous_witness :
  ids (versions (session (turns twoTurns initial))) = [1; 2] /\
  versionCounter (session (turns twoTurns initial)) = 2.
Proof.
  destruct (snapshot_ids_contiguous twoTurns twoTurns_successful)
    as (Hids & Hc & _).
  exact (conj Hids Hc).
Defined.


Lemma submit_context_witness :
  snd (submit darkMode false (session scenario2))
  = Some (mkPending darkMode []) /\
  snd (submit darkMode true (session scenario2))
  = Some (mkPending darkMode (history (session scenario2))).
Proof.
  destruct (submit_context darkMode (session scenario2) eq_refl
                           scenario2_not_thinking)
    as [(s1 & H1 & _) (s2 & H2 & _)].
  rewrite H1, H2. split; reflexivity.
Defined.


Lemma branching_deterministic_witness :
  session (turn darkMode true (generatorOk threeMessages) 3000
                (restoreAndClose (snapshot 0 scenario2) scenario2))
  = session (turn darkMode true (generatorOk threeMessages) 3000 scenario1).
Proof.
  destruct (branching_deterministic firstRequest 0
              (mkPending contactForm []) (generatorOk threeMessages) 1000
              threeMessages None refinement darkMode
              (generatorOk threeMessages) 3000)
    as (_ & _ & _ & Hsame & _).
  - reflexivity.
  - reflexivity.
  - cbn. tauto.
  - reflexivity.
  - exact Hsame.
Defined.

(** * Further properties of the component *)

(** ** Trimming *)

Lemma trimStart_blank (s : jsstring) :
  trimStart s = [] <-> forallb isWhiteSpace s = true.
Proof.
  induction s as [|c s IH]; simpl; [tauto|].
  destruct (isWhiteSpace c); simpl; [exact IH|]. split; discriminate.
Qed.

Lemma trimStart_head (s : jsstring) (c : N) (r : jsstring) :
  trimStart s = c :: r -> isWhiteSpace c = false.
Proof.
  induction s as [|d s IH]; simpl; [discriminate|].
  destruct (isWhiteSpace d) eqn:E; [exact IH|]. now intros [= <- _].
Qed.

Lemma trimStart_fixed (c : N) (r : jsstring) :
  isWhiteSpace c = false -> trimStart (c :: r) = c :: r.
Proof. intros E. simpl. now rewrite E. Qed.

(** What [trimStart] removes is whitespace, and it removes it from the
    front. *)
Lemma trimStart_suffix (s : jsstring) :
  exists pre, s = pre ++ trimStart s /\ forallb isWhiteSpace pre = true.
Proof.
  induction s as [|c s (pre & Hs & Hpre)]; [now exists []|].
  simpl. destruct (isWhiteSpace c) eqn:E.
  - exists (c :: pre). simpl. rewrite E, Hpre. split; [now f_equal|reflexivity].
  - now exists [].
Qed.

Lemma trimStart_app_keep (l : jsstring) (c : N) :
  isWhiteSpace c = false -> exists x, trimStart (l ++ [c]) = x ++ [c].
Proof.
  intros E. induction l as [|d l (x & IH)]; simpl.
  - rewrite E. now exists [].
  - destruct (isWhiteSpace d); [now exists x|]. now exists (d :: l).
Qed.

Lemma forallb_reverse {A} (f : A -> bool) (l : list A) :
  forallb f (rev l) = forallb f l.
Proof.
  induction l as [|a l IH]; [reflexivity|].
  simpl. rewrite forallb_app, IH. simpl. rewrite andb_true_r. apply andb_comm.
Qed.

Lemma trimEnd_blank (s : jsstring) :
  trimEnd s = [] <-> forallb isWhiteSpace s = true.
Proof.
  unfold trimEnd. rewrite <- (forallb_reverse isWhiteSpace s), <- trimStart_blank.
  split; intros Hs.
  - apply (f_equal (@rev N)) in Hs. now rewrite rev_involutive in Hs.
  - now rewrite Hs.
Qed.

Lemma trimEnd_head (c : N) (r : jsstring) :
  isWhiteSpace c = false -> exists r', trimEnd (c :: r) = c :: r'.
Proof.
  intros E. unfold trimEnd. simpl rev.
  destruct (trimStart_app_keep (rev r) c E) as (x & ->).
  rewrite rev_app_distr. simpl. now eexists.
Qed.

Lemma trim_blank_iff (s : jsstring) :
  trim s = [] <-> forallb isWhiteSpace s = true.
Proof.
  unfold trim. rewrite trimEnd_blank.
  destruct (trimStart_suffix s) as (pre & Hs & Hpre).
  split; intros Hb.
  - rewrite Hs, forallb_app, Hpre, Hb. reflexivity.
  - apply trimStart_blank in Hb. now rewrite Hb.
Qed.

(** A trimmed string that is not empty begins and ends with a character
    that is not whitespace. *)
Lemma trim_ends (s : jsstring) :
  trim s <> [] ->
  exists first rest last front,
    trim s = first :: rest /\ isWhiteSpace first = false /\
    trim s = front ++ [last] /\ isWhiteSpace last = false.
Proof.
  intros Hne. unfold trim in *.
  destruct (trimStart s) as [|c r] eqn:Hs; [now destruct Hne|].
  pose proof (trimStart_head _ _ _ Hs) as Hc.
  destruct (trimEnd_head c r Hc) as (r' & He). rewrite He.
  unfold trimEnd in He.
  destruct (trimStart (rev (c :: r))) as [|d t] eqn:Hr; [discriminate|].
  pose proof (trimStart_head _ _ _ Hr) as Hd.
  exists c, r', d, (rev t). repeat split; auto.
Qed.

Lemma trim_idempotent (s : jsstring) : trim (trim s) = trim s.
Proof.
  destruct (trim s) as [|c r] eqn:Ht; [reflexivity|].
  assert (Hne : trim s <> []) by now rewrite Ht.
  destruct (trim_ends s Hne) as (a & rest & z & front & H1 & Ha & H2 & Hz).
  rewrite Ht in H1, H2. injection H1 as <- <-.
  unfold trim. rewrite (trimStart_fixed c r Ha).
  unfold trimEnd. rewrite H2, rev_app_distr.
  change (rev [z] ++ rev front) with (z :: rev front).
  rewrite (trimStart_fixed z (rev front) Hz).
  simpl rev. now rewrite rev_involutive.
Qed.

Section Further.
Context {Json : Type} `{Stringify Json}.

Local Abbreviation UIVersion := (UIVersion.t Json).
Local Abbreviation Session := (Session Json).
Local Abbreviation Home := (Home Json).
Local Abbreviation Event := (Event Json).
Local Abbreviation FetchResult := (FetchResult Json).

#[local] Arguments Z.add : simpl never.
#[local] Arguments Z.sub : simpl never.
#[local] Arguments Z.mul : simpl never.
#[local] Arguments Z.of_nat : simpl never.

Implicit Types (s : Session) (h : Home) (v u w : UIVersion) (e : Event)
         (r : FetchResult) (p : Pending) (vs : list UIVersion)
         (prompt : jsstring) (isRefinement : bool) (now : Z).

(** ** The guard, by characters *)

(** X1. [submit] sends no request exactly when every character of the
    prompt is whitespace or the state is [thinking]; it then returns the
    session as it was. *)
Theorem submit_sends_nothing_iff prompt isRefinement s :
  (snd (submit prompt isRefinement s) = None <->
   forallb isWhiteSpace prompt = true \/ state s = thinking) /\
  (snd (submit prompt isRefinement s) = None ->
   fst (submit prompt isRefinement s) = s).
Proof.
  destruct (guard_cases prompt s) as [Hg|[Ht Hs]].
  - rewrite (submit_rejected _ _ _ Hg). cbn [fst snd]. split; [|reflexivity].
    split; [intros _|reflexivity].
    destruct Hg as [Hg|Hg]; [left; now apply trim_blank_iff|now right].
  - rewrite (submit_accepted _ _ _ Ht Hs). cbn [fst snd].
    split; [|discriminate]. split; [discriminate|].
    intros [Hb|Hth]; [|contradiction].
    apply trim_blank_iff in Hb. now rewrite Hb in Ht.
Qed.

(** X2. When [submit] sends a request, the prompt in it is the trimmed
    prompt, which is also what [lastPrompt] becomes; it begins and ends
    with a character that is not whitespace, so that trimming it again
    changes nothing; and the state is [thinking]. *)
Theorem submit_sends_trimmed prompt isRefinement s s' p
  (Hsent : submit prompt isRefinement s = (s', Some p)) :
  trimmed p = trim prompt /\
  lastPrompt s' = trimmed p /\
  state s' = thinking /\
  trim (trimmed p) = trimmed p /\
  exists first rest last front,
    trimmed p = first :: rest /\ isWhiteSpace first = false /\
    trimmed p = front ++ [last] /\ isWhiteSpace last = false.
Proof.
  destruct (guard_cases prompt s) as [Hg|[Ht Hs]].
  - rewrite (submit_rejected _ _ _ Hg) in Hsent. discriminate.
  - rewrite (submit_accepted _ _ _ Ht Hs) in Hsent.
    injection Hsent as <- <-. cbn [trimmed].
    split; [reflexivity|]. split; [now destruct isRefinement|].
    split; [now destruct isRefinement|]. split; [apply trim_idempotent|].
    apply trim_ends. intros E. now rewrite E in Ht.
Qed.

(** ** [restoreVersion] on any store *)

Lemma findIndexFrom_cases {A} (f : A -> bool) (l : list A) (i : Z) :
  (findIndexFrom f l i = -1 /\ forall x, In x l -> f x = false) \/
  (exists pre x post,
      l = pre ++ x :: post /\ (forall y, In y pre -> f y = false) /\
      f x = true /\ findIndexFrom f l i = i + Z.of_nat (length pre)).
Proof.
  revert i; induction l as [|a l IH]; intros i.
  - left. split; [reflexivity|]. intros x [].
  - cbn [findIndexFrom]. destruct (f a) eqn:E.
    + right. exists [], a, l. repeat split; auto; [intros y []|simpl; lia].
    + destruct (IH (i + 1)) as [[Hn Hall]|(pre & x & post & -> & Hpre & Hx & Hi)].
      * left. split; [exact Hn|]. intros x [<-|Hx]; auto.
      * right. exists (a :: pre), x, post. repeat split; auto.
        -- intros y [<-|Hy]; auto.
        -- rewrite Hi. simpl length. lia.
Qed.

(** X3. On any store and for any snapshot given, [restoreVersion] leaves
    a prefix of the store: nothing is added or reordered.  The prefix is
    empty when no snapshot of the store has the given id, and otherwise
    ends with the first snapshot that has it. *)
Theorem restoreVersion_prefix v s :
  exists dropped,
    versions s = versions (restoreVersion v s) ++ dropped /\
    ((forall u, In u (versions s) -> UIVersion.id u <> UIVersion.id v) ->
     versions (restoreVersion v s) = []) /\
    (forall u, In u (versions s) -> UIVersion.id u = UIVersion.id v ->
     exists pre w,
       versions (restoreVersion v s) = pre ++ [w] /\
       UIVersion.id w = UIVersion.id v /\
       forall y, In y pre -> UIVersion.id y <> UIVersion.id v).
Proof.
  cbn [restoreVersion versions]. unfold findIndex.
  destruct (findIndexFrom_cases
              (fun u => UIVersion.id u =? UIVersion.id v) (versions s) 0)
    as [[Hn Hall]|(pre & x & post & Hvs & Hpre & Hx & Hi)].
  - rewrite Hn. change (-1 + 1) with 0. rewrite slice_prefix by lia.
    exists (versions s). split; [reflexivity|]. split; [reflexivity|].
    intros u Hu Hid. apply Hall in Hu. apply Z.eqb_neq in Hu. contradiction.
  - rewrite Hi, slice_prefix by lia.
    replace (Z.to_nat (0 + Z.of_nat (length pre) + 1))
      with (length pre + 1)%nat by lia.
    rewrite Hvs, firstn_app.
    replace (length pre + 1 - length pre)%nat with 1%nat by lia.
    rewrite firstn_all2 by lia. cbn [firstn].
    exists post. split; [now rewrite <- app_assoc|]. split.
    + intros Hno. exfalso. apply (Hno x).
      * apply in_or_app. right. now left.
      * now apply Z.eqb_eq.
    + intros u _ _. exists pre, x. split; [reflexivity|].
      split; [now apply Z.eqb_eq|].
      intros y Hy. apply Z.eqb_neq. now apply Hpre.
Qed.

(** ** Invariants of every run *)

Lemma run_invariant (P : Home -> Prop) :
  (forall h e, P h -> P (step h e)) ->
  forall evs h, P h -> P (run h evs).
Proof.
  intros Hstep evs. induction evs as [|e evs IH]; intros h Hh; [exact Hh|].
  apply (IH (step h e)). now apply Hstep.
Qed.

Lemma app_not_nil {A} (l : list A) (x : A) : l ++ [x] <> [].
Proof. now destruct l. Qed.

Lemma run_snoc h evs e : run h (evs ++ [e]) = step (run h evs) e.
Proof. unfold run. now rewrite fold_left_app. Qed.

Lemma step_activeIsCounter h e : activeIsCounter h -> activeIsCounter (step h e).
Proof.
  unfold activeIsCounter. intros Hh.
  destruct e as [prompt isRef|k r now|i| | |]; cbn [step].
  - destruct (guard_cases prompt (session h)) as [Hg|[Ht Hs]].
    + now rewrite (submit_rejected _ _ _ Hg).
    + rewrite (submit_accepted _ _ _ Ht Hs).
      destruct isRef; cbn [session versions activeVersionId versionCounter];
        [exact Hh|congruence].
  - destruct (nth_error (inflight h) k); [|exact Hh].
    cbn [session]. unfold submitResume.
    destruct (received r) as [err|[msgs text]];
      cbn [versions activeVersionId versionCounter newVersion UIVersion.id];
      auto.
  - destruct (nth_error _ i); [|exact Hh]. unfold preview.
    now destruct (_ =? _).
  - destruct (previewVersion h); [|exact Hh]. reflexivity.
  - exact Hh.
  - cbn [session reset versions]. congruence.
Qed.

Lemma reachable_activeIsCounter evs : activeIsCounter (run (@initial Json) evs).
Proof.
  apply (run_invariant activeIsCounter step_activeIsCounter).
  intros Hne. now destruct Hne.
Qed.

Lemma consecutive_last s pre v :
  consecutive s -> versions s = pre ++ [v] ->
  UIVersion.id v = versionCounter s /\
  forall u, In u pre -> UIVersion.id u < UIVersion.id v.
Proof.
  unfold consecutive. intros Hc Hvs. rewrite Hvs in Hc.
  destruct (numbered_split _ _ _ _ Hc) as (Hpre & Hv & _).
  rewrite length_app in Hv, Hpre. simpl length in Hv, Hpre.
  split; [lia|]. intros u Hu.
  pose proof (numbered_bounds _ _ _ Hpre Hu). lia.
Qed.

(** X4. However the component is driven, when the store is not empty
    its last snapshot carries the counter's value as id and is the active
    one: of the pills of the timeline the last one is marked active and
    no other, and a click on the last pill changes nothing. *)
Theorem active_pill_is_last evs pre v
  (Hvs : versions (session (run (@initial Json) evs)) = pre ++ [v]) :
  let h := run initial evs in
  UIVersion.id v = versionCounter (session h) /\
  activeVersionId (session h) = UIVersion.id v /\
  pillActive (activeVersionId (session h)) v = true /\
  (forall u, In u pre -> pillActive (activeVersionId (session h)) u = false) /\
  step h (Preview (length pre)) = h.
Proof.
  intros h. subst h.
  destruct (consecutive_last _ _ _ (reachable_consecutive evs) Hvs)
    as [Hid Hlt].
  assert (Hact : activeVersionId (session (run initial evs)) = UIVersion.id v).
  { rewrite Hid. apply reachable_activeIsCounter.
    rewrite Hvs. apply app_not_nil. }
  split; [exact Hid|]. split; [exact Hact|].
  unfold pillActive. rewrite Hact. split; [apply Z.eqb_refl|]. split.
  - intros u Hu. apply Z.eqb_neq. specialize (Hlt u Hu). lia.
  - cbn [step]. rewrite Hvs, nth_error_last.
    unfold preview. now rewrite Hact, Z.eqb_refl.
Qed.

(** X5. A click on a pill that is not the last one, followed by the
    modal's restore button, restores the snapshot of that pill: the
    store is cut down to the snapshots up to that pill, and the modal is
    closed. *)
Theorem preview_then_restore evs i v
  (Hpill : nth_error (versions (session (run (@initial Json) evs))) i = Some v)
  (Hnotlast : (S i < length (versions (session (run (@initial Json) evs))))%nat) :
  let h := run initial evs in
  previewVersion (step h (Preview i)) = Some v /\
  run h [Preview i; Restore] = restoreAndClose v h /\
  versions (session (run h [Preview i; Restore]))
  = firstn (S i) (versions (session h)) /\
  previewVersion (run h [Preview i; Restore]) = None.
Proof.
  intros h. subst h. set (h := run initial evs) in *.
  pose proof (reachable_consecutive evs) as Hc. fold h in Hc.
  destruct (nth_error_split _ _ Hpill) as (pre & post & Hvs & Hlen).
  assert (Hin : In v (versions (session h)))
    by now apply (nth_error_In _ i).
  assert (Hne : UIVersion.id v <> activeVersionId (session h)).
  { destruct (exists_last (l := versions (session h))) as (front & z & Hz);
      [intros E; rewrite E in Hin; contradiction|].
    destruct (consecutive_last _ _ _ Hc Hz) as [Hid Hlt].
    assert (Hact : activeVersionId (session h) = versionCounter (session h))
      by (apply reachable_activeIsCounter; fold h; rewrite Hz;
          apply app_not_nil).
    rewrite Hact, <- Hid.
    assert (Hfront : In v front).
    { rewrite Hz in Hpill, Hnotlast. rewrite length_app in Hnotlast.
      simpl in Hnotlast. rewrite nth_error_app1 in Hpill by lia.
      now apply (nth_error_In _ i). }
    specialize (Hlt v Hfront). lia. }
  assert (Hprev : step h (Preview i) =
                  {| session := session h; previewVersion := Some v;
                     inflight := inflight h |}).
  { cbn [step]. rewrite Hpill. unfold preview.
    destruct (Z.eqb_spec (UIVersion.id v) (activeVersionId (session h)));
      [contradiction|reflexivity]. }
  assert (Hrun : run h [Preview i; Restore] = restoreAndClose v h).
  { unfold run. cbn [fold_left]. rewrite Hprev. reflexivity. }
  split; [now rewrite Hprev|]. split; [exact Hrun|]. rewrite Hrun.
  split; [|reflexivity].
  cbn [restoreAndClose closePreview session]. unfold consecutive in Hc.
  rewrite (restoreVersion_present _ _ v Hc Hin).
  rewrite Hvs in Hc |- *. rewrite (numbered_firstn _ _ _ _ Hc).
  rewrite firstn_app. replace (S i - length pre)%nat with 1%nat by lia.
  rewrite firstn_all2 by lia. reflexivity.
Qed.

Lemma step_thinkingHasRequest h e :
  thinkingHasRequest h -> thinkingHasRequest (step h e).
Proof.
  unfold thinkingHasRequest. intros Hh.
  destruct e as [prompt isRef|k r now|i| | |]; cbn [step].
  - destruct (guard_cases prompt (session h)) as [Hg|[Ht Hs]].
    + rewrite (submit_rejected _ _ _ Hg). cbn [optList session inflight].
      now rewrite app_nil_r.
    + rewrite (submit_accepted _ _ _ Ht Hs). cbn [optList inflight].
      intros _. apply app_not_nil.
  - destruct (nth_error (inflight h) k); [|exact Hh].
    cbn [session]. unfold submitResume.
    destruct (received r) as [err|[msgs text]]; discriminate.
  - destruct (nth_error _ i); [|exact Hh]. unfold preview.
    now destruct (_ =? _).
  - destruct (previewVersion h); [|exact Hh]. discriminate.
  - exact Hh.
  - discriminate.
Qed.

(** X6. However the component is driven, while the state is [thinking]
    a request is out: the screen with the dots is never shown with
    nothing to wait for. *)
Theorem thinking_awaits_request evs
  (Hth : state (session (run (@initial Json) evs)) = thinking) :
  inflight (run (@initial Json) evs) <> [].
Proof.
  revert Hth. apply (run_invariant thinkingHasRequest step_thinkingHasRequest).
  discriminate.
Qed.

Lemma step_atMostOne h e :
  atMostOne h -> calmEvent h e -> atMostOne (step h e).
Proof.
  intros [Hlen Hiff] Hcalm.
  destruct e as [prompt isRef|k r now|i| | |]; cbn [step calmEvent] in *.
  - destruct (guard_cases prompt (session h)) as [Hg|[Ht Hs]].
    + rewrite (submit_rejected _ _ _ Hg). cbn [optList session inflight].
      rewrite app_nil_r. now split.
    + rewrite (submit_accepted _ _ _ Ht Hs). cbn [optList inflight session].
      assert (Hnil : inflight h = []).
      { destruct (inflight h) as [|q l] eqn:E; [reflexivity|].
        exfalso. apply Hs. apply Hiff. discriminate. }
      rewrite Hnil. split; [simpl; lia|].
      split; [discriminate|]. now destruct isRef.
  - destruct (nth_error (inflight h) k) as [p|] eqn:Hk; [|now split].
    cbn [session inflight].
    assert (Hnil : dropNth k (inflight h) = []).
    { destruct (inflight h) as [|q [|q' l]]; simpl in Hlen; try lia.
      - now destruct k.
      - destruct k as [|k]; [reflexivity|]. now destruct k. }
    rewrite Hnil. split; [simpl; lia|].
    unfold submitResume.
    destruct (received r) as [err|[msgs text]]; cbn [session state inflight];
      (split; [discriminate|intros Hne; now destruct Hne]).
  - destruct (nth_error _ i); [|now split]. unfold preview.
    destruct (_ =? _); now split.
  - destruct (previewVersion h); [|now split].
    cbn [restoreAndClose closePreview session inflight restoreVersion state].
    split; [exact Hlen|]. split; [discriminate|].
    intros Hne. exfalso. apply Hcalm. now apply Hiff.
  - now split.
  - cbn [session inflight reset state]. split; [exact Hlen|].
    split; [discriminate|]. intros Hne. exfalso. apply Hcalm. now apply Hiff.
Qed.

Lemma run_atMostOne evs : forall h,
  atMostOne h -> calm h evs -> atMostOne (run h evs).
Proof.
  induction evs as [|e evs IH]; intros h Hh Hc; [exact Hh|].
  destruct Hc as [He Hc]. apply (IH (step h e)); auto.
  now apply step_atMostOne.
Qed.

Lemma initial_atMostOne : atMostOne (@initial Json).
Proof.
  split; [simpl; lia|]. split; [discriminate|]. intros Hne. now destruct Hne.
Qed.

(** X7. In a run in which the modal's restore button and [reset] are
    not used while the state is [thinking], at most one request is out
    at any time, and one is out exactly when the state is [thinking]. *)
Theorem one_generation_at_a_time evs (Hcalm : calm (@initial Json) evs) :
  let h := run initial evs in
  (length (inflight h) <= 1)%nat /\
  (state (session h) = thinking <-> inflight h <> []).
Proof. exact (run_atMostOne evs initial initial_atMostOne Hcalm). Qed.

(** ** What counts as a generation *)

Lemma received_generated r msgs text :
  received r = inr (msgs, text) <->
  exists status data,
    r = FetchResolved true status (BodyParsed data) /\
    truthy (data_error data) = false /\
    data_messages data = Some msgs /\ msgs <> [] /\
    text = data_text data.
Proof.
  split.
  - destruct r as [e|[|] status [e|data]]; cbn [received negb];
      try discriminate.
    destruct (truthy (data_error data)) eqn:E; [discriminate|].
    destruct (data_messages data) as [[|m ms]|] eqn:Em; try discriminate.
    intros [= <- <-]. exists status, data. repeat split; auto. discriminate.
  - intros (status & data & -> & E & Em & Hne & ->).
    cbn [received negb]. rewrite E, Em. destruct msgs; [contradiction|reflexivity].
Qed.

(** X8. When the request of a suspended call settles, a snapshot is
    added and the state becomes [rendered] exactly if the response has
    an ok status, its body parses, carries no truthy [error] and has at
    least one message; in every other case the store is left as it is
    and the state becomes [error]. *)
Theorem settle_outcome h k p r now
  (Hk : nth_error (inflight h) k = Some p) :
  let h' := step h (Settle k r now) in
  (generates r = true <->
   exists status data m ms,
     r = FetchResolved true status (BodyParsed data) /\
     truthy (data_error data) = false /\
     data_messages data = Some (m :: ms)) /\
  (generates r = true ->
   state (session h') = rendered /\
   exists v, versions (session h') = versions (session h) ++ [v] /\
             UIVersion.messages v = a2uiMessages (session h') /\
             UIVersion.messages v <> []) /\
  (generates r = false ->
   state (session h') = error /\ versions (session h') = versions (session h)).
Proof.
  intros h'. unfold h'. cbn [step]. rewrite Hk. cbn [session].
  unfold generates, submitResume.
  destruct (received r) as [err|[msgs text]] eqn:Hr.
  - split; [|split; [discriminate|now intros _]].
    split; [discriminate|].
    intros (status & data & m & ms & Hres & E & Em). exfalso.
    assert (Hok : received r = inr (m :: ms, data_text data)).
    { apply received_generated. exists status, data. repeat split; auto.
      discriminate. }
    congruence.
  - apply received_generated in Hr
      as (status & data & Hres & E & Em & Hne & Htext).
    split; [|split; [|discriminate]].
    + split; [intros _|reflexivity].
      destruct msgs as [|m ms]; [contradiction|].
      now exists status, data, m, ms.
    + intros _. split; [reflexivity|]. eexists. split; [reflexivity|].
      split; [reflexivity|exact Hne].
Qed.

(** X9. A failure that [submit] raises itself, on a response without
    an ok status or on a parsed body, comes with a message that is not
    empty; and a thrown value that is no error object is reported as
    "Something went wrong". *)
Theorem failure_message (ok : bool) (status : Z) (body : BodyResult Json) err
  (Hraised : ok = false \/ exists data, body = BodyParsed data)
  (Hfail : received (FetchResolved ok status body) = inl err) :
  caughtMessage err <> [] /\
  caughtMessage (OtherValue) = lit "Something went wrong" /\
  (ok = false ->
   caughtMessage err = lit "Server error: " ++ numberToString status).
Proof.
  split; [|split; [reflexivity|]].
  - destruct ok; cbn [received negb] in Hfail.
    + destruct Hraised as [|[data ->]]; [discriminate|].
      destruct (truthy (data_error data)) eqn:E.
      * injection Hfail as <-. cbn [caughtMessage].
        destruct (data_error data) as [[|c m]|]; simpl in E; discriminate.
      * destruct (data_messages data) as [[|m ms]|];
          try discriminate; injection Hfail as <-; discriminate.
    + injection Hfail as <-. discriminate.
  - intros ->. cbn [received negb] in Hfail. now injection Hfail as <-.
Qed.

(** ** Starting over *)

(** X10. A successful turn without the refinement flag ends in the same
    session whatever the session was before: nothing of the earlier
    lineage is left. *)
Theorem fresh_turn_forgets prompt r now h1 h2
  (Hprompt : nonEmpty (trim prompt) = true)
  (Hs1 : state (session h1) <> thinking)
  (Hs2 : state (session h2) <> thinking)
  (Hok : generates r = true) :
  session (turn prompt false r now h1) = session (turn prompt false r now h2).
Proof.
  unfold generates in Hok.
  destruct (received r) as [|[msgs text]] eqn:Hr; [discriminate|].
  rewrite (turn_generated _ false _ now _ _ _ Hprompt Hs1 Hr).
  now rewrite (turn_generated _ false _ now _ _ _ Hprompt Hs2 Hr).
Qed.

(** X11. After [reset], a turn with either flag ends in the session it
    ends in on the freshly loaded page, whether its generation succeeds
    or fails. *)
Theorem reset_starts_over prompt isRefinement r now h
  (Hprompt : nonEmpty (trim prompt) = true) :
  session (turn prompt isRefinement r now (step h Reset))
  = session (turn prompt isRefinement r now initial).
Proof.
  rewrite !turn_accepted by (assumption || discriminate).
  cbn [session step]. rewrite !submit_accepted by (assumption || discriminate).
  now destruct isRefinement.
Qed.

Lemma step_idleIsEmpty h e : idleIsEmpty h -> idleIsEmpty (step h e).
Proof.
  unfold idleIsEmpty. intros Hh.
  destruct e as [prompt isRef|k r now|i| | |]; cbn [step].
  - destruct (guard_cases prompt (session h)) as [Hg|[Ht Hs]].
    + now rewrite (submit_rejected _ _ _ Hg).
    + rewrite (submit_accepted _ _ _ Ht Hs). now destruct isRef.
  - destruct (nth_error (inflight h) k); [|exact Hh].
    cbn [session]. unfold submitResume.
    destruct (received r) as [err|[msgs text]]; discriminate.
  - destruct (nth_error _ i); [|exact Hh]. unfold preview.
    now destruct (_ =? _).
  - destruct (previewVersion h); [|exact Hh]. discriminate.
  - exact Hh.
  - intros _. now repeat split.
Qed.

(** X12. However the component is driven, in the state [idle], the
    only one whose screen offers a submission without the refinement
    flag, the turn log and the store are empty and the counter is zero,
    so that [submit] does the same with and without the flag. *)
Theorem idle_is_empty evs prompt
  (Hidle : state (session (run (@initial Json) evs)) = idle) :
  let s := session (run initial evs) in
  history s = [] /\ versions s = [] /\ versionCounter s = 0 /\
  activeVersionId s = 0 /\ a2uiMessages s = [] /\
  submit prompt false s = submit prompt true s.
Proof.
  intros s.
  assert (Hinv : idleIsEmpty (run (@initial Json) evs)).
  { apply (run_invariant idleIsEmpty step_idleIsEmpty).
    intros _. now repeat split. }
  destruct (Hinv Hidle) as (Ha & He & Hi & Hh & Hv & Hact & Hc).
  fold s in Ha, He, Hi, Hh, Hv, Hact, Hc, Hidle.
  repeat split; auto.
  destruct (guard_cases prompt s) as [Hg|[Ht Hs]].
  - now rewrite !(submit_rejected _ _ _ Hg).
  - rewrite !(submit_accepted _ _ _ Ht Hs). now rewrite Ha, Hh, Hv, Hc.
Qed.

(** ** Well-formed snapshots *)

Lemma initial_sound : sound (@initial Json).
Proof. repeat split; try constructor; discriminate. Qed.

Lemma step_sound h e : sound h -> sound (step h e).
Proof.
  intros Hall. pose proof Hall as (Hc & Hvs & Hpv & Hps & Hr).
  destruct e as [prompt isRef|k r now|i| | |]; cbn [step].
  - destruct (guard_cases prompt (session h)) as [Hg|[Ht Hs]].
    + rewrite (submit_rejected _ _ _ Hg). cbn [optList]. rewrite app_nil_r.
      now rewrite home_eta.
    + rewrite (submit_accepted _ _ _ Ht Hs).
      assert (Hp : soundPending
                     (mkPending (trim prompt)
                                (if isRef then history (session h) else [])))
        by (split; [exact Ht|apply trim_idempotent]).
      destruct isRef; repeat split;
        cbn [session inflight versions versionCounter previewVersion state
             optList]; auto; try lia; try discriminate;
        try (apply Forall_app; split; [exact Hps|now constructor]).
  - destruct (nth_error (inflight h) k) as [p|] eqn:Hk; [|exact Hall].
    assert (Hp : soundPending p).
    { rewrite Forall_forall in Hps. apply Hps. now apply (nth_error_In _ k). }
    assert (Hps' : Forall soundPending (dropNth k (inflight h)))
      by (apply (Forall_incl _ (inflight h)); [apply dropNth_incl|exact Hps]).
    unfold submitResume. destruct (received r) as [err|[msgs text]] eqn:Hrec.
    + repeat split; cbn [session inflight versions versionCounter
                         previewVersion state]; auto. discriminate.
    + apply received_generated in Hrec as (_ & _ & _ & _ & _ & Hne & _).
      destruct Hp as [Hp1 Hp2].
      repeat split; cbn [session inflight versions versionCounter
                         previewVersion state a2uiMessages]; auto; try lia.
      apply Forall_app. split; [exact Hvs|]. constructor; [|constructor].
      unfold soundSnapshot, newVersion, newHistory.
      cbn [UIVersion.id UIVersion.prompt UIVersion.messages UIVersion.history].
      repeat split; auto; try lia. now eexists; eexists.
  - destruct (nth_error (versions (session h)) i) as [v|] eqn:Hi;
      [|exact Hall].
    unfold preview. destruct (_ =? _); [exact Hall|].
    repeat split; cbn [session inflight previewVersion optList]; auto.
    constructor; [|constructor].
    rewrite Forall_forall in Hvs. apply Hvs. now apply (nth_error_In _ i).
  - destruct (previewVersion h) as [v|] eqn:Hv; [|exact Hall].
    inversion Hpv as [|? ? Hsv _]; subst.
    pose proof Hsv as (Hid & _ & _ & Hm & _).
    repeat split;
      cbn [restoreAndClose closePreview restoreVersion session inflight
           versions versionCounter previewVersion optList state a2uiMessages];
      auto; try lia.
    apply (Forall_incl _ (versions (session h))); [apply slice_incl|exact Hvs].
  - repeat split; cbn [closePreview session inflight previewVersion optList];
      auto.
  - repeat split;
      cbn [session inflight previewVersion reset versions versionCounter state];
      auto; try lia; try constructor; discriminate.
Qed.

Lemma reachable_sound evs : sound (run (@initial Json) evs).
Proof. apply (run_invariant sound step_sound), initial_sound. Qed.

(** X13. However the component is driven, every snapshot of the store,
    and the one the modal shows, has an id of at least 1, a prompt that
    is not empty and is in trimmed form, at least one message, and a turn
    log that ends with that prompt as the user's turn followed by an
    assistant's turn. *)
Theorem snapshots_well_formed evs v
  (Hv : In v (versions (session (run (@initial Json) evs))) \/
        previewVersion (run (@initial Json) evs) = Some v) :
  1 <= UIVersion.id v /\
  UIVersion.prompt v <> [] /\
  trim (UIVersion.prompt v) = UIVersion.prompt v /\
  UIVersion.messages v <> [] /\
  exists context answer,
    UIVersion.history v =
    context ++ [ HistoryTurn.mk user (UIVersion.prompt v);
                 HistoryTurn.mk assistant answer ].
Proof.
  destruct (reachable_sound evs) as (_ & Hvs & Hpv & _).
  assert (Hs : soundSnapshot v).
  { destruct Hv as [Hin|Hp].
    - rewrite Forall_forall in Hvs. now apply Hvs.
    - rewrite Hp in Hpv. now inversion Hpv. }
  destruct Hs as (Hid & Hp & Ht & Hm & Hh).
  repeat split; auto. intros E. now rewrite E in Hp.
Qed.

(** X14. However the component is driven, in the state [rendered] there
    are messages to render: the renderer is never handed the empty array
    on which it does nothing. *)
Theorem rendered_has_messages evs
  (Hrendered : state (session (run (@initial Json) evs)) = rendered) :
  a2uiMessages (session (run (@initial Json) evs)) <> [].
Proof. destruct (reachable_sound evs) as (_ & _ & _ & _ & Hr). auto. Qed.

(** ** The timeline's pills and the badge *)

(** X15. The text of a pill is the prompt itself when that has at most
    28 code units, and otherwise its first 28 code units followed by the
    ellipsis character; in no case is it longer than 29 code units. *)
Theorem pillPrompt_bounded v :
  (length (pillPrompt v) <= 29)%nat /\
  ((length (UIVersion.prompt v) <= 28)%nat ->
   pillPrompt v = UIVersion.prompt v) /\
  ((28 < length (UIVersion.prompt v))%nat ->
   pillPrompt v = firstn 28 (UIVersion.prompt v) ++ [8230%N] /\
   length (pillPrompt v) = 29%nat).
Proof.
  unfold pillPrompt.
  destruct (Z.ltb_spec 28 (Z.of_nat (length (UIVersion.prompt v)))) as [Hl|Hl].
  - rewrite slice_prefix by lia. change (Z.to_nat 28) with 28%nat.
    assert (Hlen : length (firstn 28 (UIVersion.prompt v) ++ [8230%N]) = 29%nat)
      by (rewrite length_app, length_firstn; cbn [length]; lia).
    split; [lia|]. split; [lia|]. now split.
  - split; [lia|]. split; [reflexivity|lia].
Qed.

Lemma badge_of_even (log : list HistoryTurn.t) :
  evenLength log ->
  (refinementBadge log = None <-> (length log <= 2)%nat) /\
  (forall text, refinementBadge log = Some text ->
   exists n : nat,
     length log = (2 * n)%nat /\ (2 <= n)%nat /\
     text = numberToString (Z.of_nat n) ++ lit " refinement" ++
            (if (n =? 2)%nat then [] else lit "s")).
Proof.
  unfold evenLength, refinementBadge. intros Heven.
  apply Nat.even_spec in Heven as [n Hn]. rewrite Hn.
  assert (Hdiv : (2 * n / 2 = n)%nat)
    by (rewrite Nat.mul_comm; apply Nat.div_mul; lia).
  rewrite Hdiv.
  destruct (Nat.ltb_spec 2 (2 * n)) as [Hlt|Hle].
  - split; [split; [discriminate|lia]|].
    intros text [= <-]. exists n. split; [reflexivity|]. split; [lia|].
    destruct (4 <? _)%nat eqn:E4; destruct (Nat.eqb_spec n 2) as [E2|E2];
      try reflexivity;
      [apply Nat.ltb_lt in E4|apply Nat.ltb_ge in E4]; lia.
  - split; [split; [lia|reflexivity]|]. discriminate.
Qed.

Lemma modalBadge_header v :
  modalBadge v =
  option_map (fun text => text ++ lit " applied")
             (refinementBadge (UIVersion.history v)).
Proof.
  unfold modalBadge, refinementBadge.
  destruct (2 <? _)%nat; [|reflexivity]. cbn [option_map].
  now rewrite <- !app_assoc.
Qed.

(** X16. However the component is driven: the header's badge, on the
    session's turn log, is absent exactly when the log has at most two
    turns, and when present it reads [n] refinement(s) where the log
    has exactly [2 n] turns and [n] is at least 2, without the plural
    [s] exactly when [n] is 2; and the badge of the modal, for every
    snapshot of the store and for the one the modal shows, is the same
    on that snapshot's log with [" applied"] after it. *)
Theorem refinement_badge evs :
  let h := run (@initial Json) evs in
  (refinementBadge (history (session h)) = None <->
   (length (history (session h)) <= 2)%nat) /\
  (forall text, refinementBadge (history (session h)) = Some text ->
   exists n : nat,
     length (history (session h)) = (2 * n)%nat /\ (2 <= n)%nat /\
     text = numberToString (Z.of_nat n) ++ lit " refinement" ++
            (if (n =? 2)%nat then [] else lit "s")) /\
  (forall v, In v (versions (session h)) \/ previewVersion h = Some v ->
   (modalBadge v = None <-> (length (UIVersion.history v) <= 2)%nat) /\
   (forall text, modalBadge v = Some text ->
    exists n : nat,
      length (UIVersion.history v) = (2 * n)%nat /\ (2 <= n)%nat /\
      text = numberToString (Z.of_nat n) ++ lit " refinement" ++
             (if (n =? 2)%nat then [] else lit "s") ++ lit " applied")).
Proof.
  intros h.
  destruct (run_logsEven evs initial initial_logsEven) as (Hh & Hvs & _ & Hpv).
  fold h in Hh, Hvs, Hpv.
  destruct (badge_of_even _ Hh) as [Hnone Hsome].
  split; [exact Hnone|]. split; [exact Hsome|].
  intros v Hv.
  assert (Hev : evenLength (UIVersion.history v)).
  { destruct Hv as [Hin|Hp].
    - rewrite Forall_forall in Hvs. now apply Hvs.
    - rewrite Hp in Hpv. now inversion Hpv. }
  destruct (badge_of_even _ Hev) as [Hn Hs].
  rewrite modalBadge_header.
  destruct (refinementBadge (UIVersion.history v)) as [b|] eqn:Hb;
    cbn [option_map].
  - split; [split; [discriminate|]|].
    + intros Hle. apply Hn in Hle. discriminate.
    + intros text [= <-]. destruct (Hs b eq_refl) as (n & Hlen & Hge & ->).
      exists n. split; [exact Hlen|]. split; [exact Hge|].
      now rewrite <- !app_assoc.
  - split; [split; [intros _; now apply Hn|reflexivity]|discriminate].
Qed.

End Further.

(** ** The placeholder *)

Lemma PROMPTS_length : length PROMPTS = 8%nat.
Proof. reflexivity. Qed.

(** X17. After [n] ticks of the interval the placeholder index is
    [n mod 8]: it stays within [PROMPTS], so that the placeholder is
    always one of the eight prompts, and every prompt comes up again
    after eight ticks. *)
Theorem placeholder_cycles (n : nat) :
  placeholderAfter n = (n mod 8)%nat /\
  (placeholderAfter n < length PROMPTS)%nat /\
  nth_error PROMPTS (placeholderAfter n) <> None /\
  placeholderAfter (n + 8) = placeholderAfter n.
Proof.
  assert (Hmod : forall k, placeholderAfter k = (k mod 8)%nat).
  { induction k as [|k IH]; [reflexivity|].
    change (placeholderAfter (S k))
      with (nextPlaceholder (placeholderAfter k)). rewrite IH.
    unfold nextPlaceholder. rewrite PROMPTS_length.
    rewrite Nat.Div0.add_mod_idemp_l. f_equal. lia. }
  assert (Hlt : (placeholderAfter n < length PROMPTS)%nat).
  { rewrite Hmod, PROMPTS_length. apply Nat.mod_upper_bound. lia. }
  split; [apply Hmod|]. split; [exact Hlt|]. split.
  - now apply nth_error_Some.
  - rewrite !Hmod. replace (n + 8)%nat with (n + 1 * 8)%nat by lia.
    now rewrite Nat.Div0.mod_add.
Qed.

(** ** Orderly runs *)

Section OrderlyRuns.
Context {Json : Type} `{Stringify Json}.

Local Abbreviation UIVersion := (UIVersion.t Json).
Local Abbreviation Session := (Session Json).
Local Abbreviation Home := (Home Json).
Local Abbreviation Event := (Event Json).

#[local] Arguments Z.add : simpl never.
#[local] Arguments Z.sub : simpl never.
#[local] Arguments Z.mul : simpl never.
#[local] Arguments Z.of_nat : simpl never.

Implicit Types (s : Session) (h : Home) (v u w : UIVersion) (e : Event)
         (vs : list UIVersion).

Lemma chained_nil : chained (@nil UIVersion).
Proof.
  split; [intros v []|]. intros pre v w post E. now destruct pre.
Qed.

Lemma chained_prefix vs1 vs2 : chained (vs1 ++ vs2) -> chained vs1.
Proof.
  intros [Hlen Hadj]. split.
  - intros v Hv. apply Hlen. apply in_or_app. now left.
  - intros pre v w post E. apply (Hadj pre v w (post ++ vs2)).
    rewrite E, <- app_assoc. reflexivity.
Qed.

Lemma chained_snoc vs new :
  chained vs ->
  Z.of_nat (length (UIVersion.history new)) = 2 * UIVersion.id new ->
  (forall pre v, vs = pre ++ [v] ->
   exists question answer,
     UIVersion.history new = UIVersion.history v ++ [question; answer]) ->
  chained (vs ++ [new]).
Proof.
  intros [Hlen Hadj] Hnew Hlast. split.
  - intros v Hv. apply in_app_or in Hv as [Hv|[<-|[]]]; auto.
  - intros pre v w post E.
    destruct (exists_last (l := v :: w :: post)) as (front & z & Hz);
      [discriminate|].
    assert (E' : vs ++ [new] = (pre ++ front) ++ [z])
      by (rewrite E, <- app_assoc, <- Hz; reflexivity).
    apply app_inj_tail in E' as [Hvs <-].
    destruct post as [|y post].
    + assert (front = [v]).
      { destruct front as [|a [|b front]]; try discriminate.
        - now injection Hz as -> _.
        - injection Hz as _ Hz. now destruct front. }
      subst front. injection Hz as <-. now apply (Hlast pre).
    + destruct (exists_last (l := y :: post)) as (mid & z' & Hm);
        [discriminate|].
      rewrite Hm in Hz.
      change (v :: w :: mid ++ [z']) with ((v :: w :: mid) ++ [z']) in Hz.
      apply app_inj_tail in Hz as [<- _].
      apply (Hadj pre v w mid). rewrite Hvs. reflexivity.
Qed.

Lemma initial_coherent : coherent (@initial Json).
Proof.
  split; [apply initial_wellNumbered|]. split; [simpl; lia|].
  split; [apply initial_atMostOne|]. split; [constructor|].
  split; [reflexivity|]. split; [|apply chained_nil].
  intros pre v E. now destruct pre.
Qed.

Lemma showsLast_nil s : versions s = [] -> showsLast s.
Proof. intros E pre v Hv. rewrite E in Hv. now destruct pre. Qed.

Local Ltac unchanged :=
  split; [assumption|split; [assumption|split; assumption]].

Lemma step_coherent h e :
  coherent h -> orderlyEvent h e -> coherent (step h e).
Proof.
  intros Hall [Hcalm Hfresh].
  pose proof Hall as (Hw & Hlen & Hiff & Hps & Hlog & Hlast & Hch).
  assert (Hone : atMostOne (step h e))
    by (apply step_atMostOne; [now split|exact Hcalm]).
  destruct Hone as [Hlen' Hiff'].
  split; [|split; [exact Hlen'|split; [exact Hiff'|]]].
  { destruct e as [prompt isRef|k r now|i| | |]; cbn [step].
    - pose proof (submit_wellNumbered prompt isRef _ Hw) as Hs.
      destruct (submit prompt isRef (session h)); exact Hs.
    - destruct (nth_error (inflight h) k); [|exact Hw].
      now apply submitResume_wellNumbered.
    - destruct (nth_error _ i); [|exact Hw]. unfold preview.
      now destruct (_ =? _).
    - destruct (previewVersion h) as [v|]; [|exact Hw].
      cbn [optList] in Hfresh. inversion Hfresh as [|? ? Hin _]; subst.
      destruct Hw as [Hids Hc].
      destruct (numbered_prefix 1 _ _ Hids Hin)
        as (pre & post & Hvs & Hid & Hfirst).
      pose proof (restoreVersion_present 1 _ v Hids Hin) as Hr.
      rewrite Hfirst in Hr.
      split; cbn [restoreAndClose closePreview session]; rewrite Hr.
      + rewrite Hvs in Hids. destruct (numbered_split _ _ _ _ Hids) as (Hp & _).
        rewrite ids_app, length_app, countFrom_app, Hp. simpl.
        do 2 f_equal. lia.
      + cbn [restoreVersion versionCounter]. rewrite length_app. simpl. lia.
    - exact Hw.
    - split; reflexivity. }
  destruct e as [prompt isRef|k r now|i| | |]; cbn [step] in *.
  - destruct (guard_cases prompt (session h)) as [Hg|[Ht Hs]].
    + rewrite (submit_rejected _ _ _ Hg). cbn [optList session inflight].
      rewrite app_nil_r. unchanged.
    + assert (Hnil : inflight h = []).
      { destruct (inflight h) as [|q l] eqn:E; [reflexivity|].
        exfalso. apply Hs. apply Hiff. discriminate. }
      rewrite (submit_accepted _ _ _ Ht Hs), Hnil.
      destruct isRef; cbn [session inflight optList app history versions
                            versionCounter].
      * split; [now repeat constructor|]. split; [exact Hlog|].
        split; [exact Hlast|exact Hch].
      * split; [now repeat constructor|]. split; [reflexivity|].
        split; [now apply showsLast_nil|apply chained_nil].
  - destruct (nth_error (inflight h) k) as [p|] eqn:Hk;
      [|unchanged].
    assert (Hp : historyToSend p = history (session h)).
    { rewrite Forall_forall in Hps. apply Hps. now apply (nth_error_In _ k). }
    assert (Hnil : dropNth k (inflight h) = []).
    { destruct (inflight h) as [|q [|q' l]]; simpl in Hlen; try lia.
      - now destruct k.
      - destruct k as [|k]; [reflexivity|]. now destruct k. }
    cbn [session inflight]. rewrite Hnil. split; [constructor|].
    unfold submitResume. destruct (received r) as [err|[msgs text]].
    + cbn [history versions versionCounter].
      split; [exact Hlog|]. split; [exact Hlast|exact Hch].
    + cbn [history versions versionCounter].
      assert (Hnew : Z.of_nat (length (newHistory p msgs text))
                     = 2 * (versionCounter (session h) + 1)).
      { unfold newHistory. rewrite Hp, length_app. simpl length. lia. }
      split; [exact Hnew|]. split.
      * intros pre v E. apply app_inj_tail in E as [_ <-]. now repeat split.
      * apply chained_snoc; [exact Hch|exact Hnew|].
        intros pre v E. destruct (Hlast pre v E) as (Hh & _).
        cbn [newVersion UIVersion.history]. unfold newHistory.
        rewrite Hp, Hh. now eexists; eexists.
  - destruct (nth_error _ i); [|unchanged]. unfold preview.
    destruct (_ =? _); unchanged.
  - destruct (previewVersion h) as [v|]; [|unchanged].
    cbn [optList] in Hfresh. inversion Hfresh as [|? ? Hin _]; subst.
    assert (Hnil : inflight h = []).
    { destruct (inflight h) as [|q l] eqn:E; [reflexivity|].
      exfalso. apply Hcalm. apply Hiff. discriminate. }
    destruct Hw as [Hids Hc].
    destruct (numbered_prefix 1 _ _ Hids Hin)
      as (pre & post & Hvs & Hid & Hfirst).
    pose proof (restoreVersion_present 1 _ v Hids Hin) as Hr.
    rewrite Hfirst in Hr.
    cbn [restoreAndClose closePreview session inflight]. rewrite Hnil.
    split; [constructor|]. split; [|split].
    + cbn [restoreVersion history versionCounter]. now apply Hch.
    + intros pre' v' E. rewrite Hr in E. apply app_inj_tail in E as [_ <-].
      now repeat split.
    + rewrite Hr. apply (chained_prefix _ post).
      rewrite <- app_assoc. simpl. now rewrite <- Hvs.
  - unchanged.
  - assert (Hnil : inflight h = []).
    { destruct (inflight h) as [|q l] eqn:E; [reflexivity|].
      exfalso. apply Hcalm. apply Hiff. discriminate. }
    cbn [session inflight reset history versions versionCounter].
    rewrite Hnil. split; [constructor|]. split; [reflexivity|].
    split; [now apply showsLast_nil|apply chained_nil].
Qed.

Lemma run_coherent evs : forall h,
  coherent h -> orderly h evs -> coherent (run h evs).
Proof.
  induction evs as [|e evs IH]; intros h Hh Ho; [exact Hh|].
  destruct Ho as [He Ho]. apply (IH (step h e)); auto.
  now apply step_coherent.
Qed.

(** X18. In an orderly run (the modal's restore button and [reset]
    are not used while the state is [thinking], and the snapshot the
    modal restores is one of the store), with submissions of either
    kind, failures, previews and restores, the ids of the store are
    [1; 2; ...] without a gap and the counter stands at their number. *)
Theorem orderly_numbering evs (Horderly : orderly (@initial Json) evs) :
  let s := session (run initial evs) in
  ids (versions s) = countFrom 1 (length (versions s)) /\
  versionCounter s = Z.of_nat (length (versions s)).
Proof. apply (run_coherent evs initial initial_coherent Horderly). Qed.

(** X19. In an orderly run the session shows the last snapshot of the
    store: the turn log, the messages and the active id are those of
    that snapshot, also while a refinement is awaited and after it has
    failed; and a request that is out carries the session's turn log. *)
Theorem orderly_shows_last evs pre v
  (Horderly : orderly (@initial Json) evs)
  (Hvs : versions (session (run (@initial Json) evs)) = pre ++ [v]) :
  let h := run initial evs in
  history (session h) = UIVersion.history v /\
  a2uiMessages (session h) = UIVersion.messages v /\
  activeVersionId (session h) = UIVersion.id v /\
  forall p, In p (inflight h) -> historyToSend p = UIVersion.history v.
Proof.
  intros h.
  destruct (run_coherent evs initial initial_coherent Horderly)
    as (_ & _ & _ & Hps & _ & Hlast & _).
  destruct (Hlast pre v Hvs) as (Hh & Ha & Hi).
  repeat split; auto. intros p Hp. rewrite <- Hh.
  rewrite Forall_forall in Hps. now apply Hps.
Qed.

(** X20. In an orderly run the turn logs of the store grow along the
    timeline: the log of each snapshot has twice as many turns as its
    id, and is the log of the snapshot before it followed by two more
    turns; the session's log has twice as many turns as the counter. *)
Theorem orderly_logs_grow evs (Horderly : orderly (@initial Json) evs) :
  let s := session (run initial evs) in
  (forall v, In v (versions s) ->
     Z.of_nat (length (UIVersion.history v)) = 2 * UIVersion.id v) /\
  (forall pre v w post, versions s = pre ++ v :: w :: post ->
     exists question answer,
       UIVersion.history w = UIVersion.history v ++ [question; answer]) /\
  Z.of_nat (length (history s)) = 2 * versionCounter s.
Proof.
  destruct (run_coherent evs initial initial_coherent Horderly)
    as (_ & _ & _ & _ & Hlog & _ & Hlen & Hadj).
  now repeat split.
Qed.

End OrderlyRuns.

(** * The further properties at work on the scenarios *)

Lemma submit_sends_trimmed_witness :
  lastPrompt (fst (submit (lit "  Add a phone field ") true (session scenario1)))
  = phoneField.
Proof.
  destruct (submit_sends_trimmed (lit "  Add a phone field ") true
              (session scenario1)
              (fst (submit (lit "  Add a phone field ") true (session scenario1)))
              (mkPending phoneField (history (session scenario1)))
              eq_refl)
    as (_ & Hlast & _).
  exact Hlast.
Defined.

Lemma active_pill_is_last_witness :
  activeVersionId (session (run initial scenario2Events)) = 2 /\
  step (run initial scenario2Events) (Preview 1) = run initial scenario2Events.
Proof.
  destruct (active_pill_is_last scenario2Events
              [snapshot 0 scenario2] (snapshot 1 scenario2) eq_refl)
    as (_ & Hact & _ & _ & Hclick).
  exact (conj Hact Hclick).
Defined.

Lemma preview_then_restore_witness :
  ids (versions (session (run (run initial scenario2Events) [Preview 0; Restore])))
  = [1] /\
  run (run initial scenario2Events) [Preview 0; Restore] = scenario3.
Proof.
  destruct (preview_then_restore scenario2Events 0%nat (snapshot 0 scenario2)
              eq_refl)
    as (_ & Hrun & Hvs & _).
  - cbn. lia.
  - rewrite Hvs. split; [reflexivity|exact Hrun].
Defined.

Lemma thinking_awaits_request_witness :
  inflight (run initial firstRequest) <> [].
Proof. apply (thinking_awaits_request firstRequest). reflexivity. Defined.

Lemma branchingRun_orderly : orderly initial branchingRun.
Proof.
  cbn. repeat split; try discriminate. repeat constructor.
Defined.

Lemma branchingRun_calm : calm initial branchingRun.
Proof. cbn. repeat split; discriminate. Defined.

Lemma one_generation_at_a_time_witness :
  (length (inflight (run initial branchingRun)) <= 1)%nat.
Proof.
  destruct (one_generation_at_a_time branchingRun branchingRun_calm)
    as [Hlen _].
  exact Hlen.
Defined.

Lemma settle_outcome_witness :
  state (session (step (run initial firstRequest) (Settle 0 noMessages 1000)))
  = error /\
  state (session (step (run initial firstRequest)
                       (Settle 0 (generatorOk threeMessages) 1000)))
  = rendered.
Proof.
  destruct (settle_outcome (run initial firstRequest) 0
              (mkPending contactForm []) noMessages 1000 eq_refl)
    as (_ & _ & Hbad).
  destruct (settle_outcome (run initial firstRequest) 0
              (mkPending contactForm []) (generatorOk threeMessages) 1000
              eq_refl)
    as (_ & Hgood & _).
  split; [apply Hbad|apply Hgood]; reflexivity.
Defined.

Lemma failure_message_witness :
  caughtMessage (ErrorObject (noUiMessage)) <> [].
Proof.
  destruct (failure_message (Json := jsstring) true 200
              (BodyParsed (mkData None (Some []) None))
              (ErrorObject noUiMessage))
    as (Hne & _).
  - right. now eexists.
  - reflexivity.
  - exact Hne.
Defined.

Lemma fresh_turn_forgets_witness :
  session (turn darkMode false (generatorOk threeMessages) 3000 scenario2)
  = session (turn darkMode false (generatorOk threeMessages) 3000 initial).
Proof.
  apply fresh_turn_forgets.
  - reflexivity.
  - discriminate.
  - discriminate.
  - reflexivity.
Defined.

Lemma reset_starts_over_witness :
  session (turn darkMode true serverError 3000 (step scenario2 Reset))
  = session (turn darkMode true serverError 3000 initial).
Proof. apply reset_starts_over. reflexivity. Defined.

Lemma idle_is_empty_witness :
  submit darkMode false (session (run initial startedOver))
  = submit darkMode true (session (run initial startedOver)).
Proof.
  destruct (idle_is_empty startedOver darkMode eq_refl)
    as (_ & _ & _ & _ & _ & Hsame).
  exact Hsame.
Defined.

Lemma snapshots_well_formed_witness :
  UIVersion.messages (snapshot 1 scenario2) <> [] /\
  trim (UIVersion.prompt (snapshot 1 scenario2))
  = UIVersion.prompt (snapshot 1 scenario2).
Proof.
  destruct (snapshots_well_formed scenario2Events (snapshot 1 scenario2))
    as (_ & _ & Ht & Hm & _).
  - left. right. left. reflexivity.
  - exact (conj Hm Ht).
Defined.

Lemma rendered_has_messages_witness :
  a2uiMessages (session (run initial scenario2Events)) <> [].
Proof. apply rendered_has_messages. reflexivity. Defined.

Lemma refinement_badge_witness :
  refinementBadge (history (session (run initial scenario2Events)))
  = Some (lit "2 refinement") /\
  modalBadge (snapshot 1 scenario2) = Some (lit "2 refinement applied") /\
  exists n : nat,
    length (history (session (run initial scenario2Events))) = (2 * n)%nat /\
    (2 <= n)%nat.
Proof.
  destruct (refinement_badge scenario2Events) as (_ & Hsome & _).
  destruct (Hsome (lit "2 refinement") eq_refl) as (n & Hlen & Hn & _).
  split; [reflexivity|]. split; [reflexivity|].
  exists n. exact (conj Hlen Hn).
Defined.

Lemma orderly_numbering_witness :
  ids (versions (session (run initial branchingRun))) = [1; 2] /\
  versionCounter (session (run initial branchingRun)) = 2.
Proof. exact (orderly_numbering branchingRun branchingRun_orderly). Defined.

Lemma orderly_shows_last_witness :
  history (session (run initial branchingRun))
  = UIVersion.history (snapshot 1 (run initial branchingRun)).
Proof.
  destruct (orderly_shows_last branchingRun
              [snapshot 0 scenario2] (snapshot 1 (run initial branchingRun))
              branchingRun_orderly eq_refl)
    as (Hh & _).
  exact Hh.
Defined.

Lemma orderly_logs_grow_witness :
  Z.of_nat (length (history (session (run initial branchingRun)))) = 4.
Proof.
  destruct (orderly_logs_grow branchingRun branchingRun_orderly)
    as (_ & _ & Hlen).
  exact Hlen.
Defined.
